(** * ndn-fch-worker: nearest-router selection with upstream delegation

    A shallow embedding of the worker's query model ([Query]), its router
    directory ([fetchTestbedNodes], [listRouters]) and its resolver
    ([apiRequest], [fallbackLogic], [handleQuery]), with the properties
    stated for them.

    Conventions of the embedding.
    - Strings are [string] (ASCII); URLSearchParams is the decoded list of
      name/value pairs, in order.
    - A JavaScript Number is the exact decimal it denotes ([Dec m e] is
      [m * 10^e], kept with [m] free of trailing zeros), or [NaN], or an
      infinity.  Rounding to binary64 is not represented; the one place where
      the source tests for it ([Number.isFinite] after [Number.parseInt]) is
      kept through the overflow bound of binary64.
    - The runtime's [fetch], timers and promises appear as the events an
      awaited, timeout-bounded call can observe.
    - [@turf/distance] and the URL parser are not part of the repository; they
      are parameters of the development. *)

From Stdlib Require Import ZArith QArith List String Ascii Bool Lia Lqa.
From Stdlib Require Import Sorting.Sorted Sorting.Permutation.
Import ListNotations.

Local Open Scope Z_scope.

(* ------------------------------------------------------------------ *)
(** ** Characters and digit strings *)

Module Digits.

Definition code (c : ascii) : Z := Z.of_N (N_of_ascii c).

Definition digit_of_ascii (c : ascii) : option Z :=
  let n := code c in
  if (48 <=? n) && (n <=? 57) then Some (n - 48) else None.

Definition digit_char (d : Z) : ascii := ascii_of_N (Z.to_N (48 + d)).

(** StrWhiteSpaceChar, restricted to ASCII: TAB, LF, VT, FF, CR, SP. *)
Definition is_space (c : ascii) : bool :=
  let n := code c in
  ((9 <=? n) && (n <=? 13)) || (n =? 32).

Fixpoint trim_start (s : string) : string :=
  match s with
  | String c s' => if is_space c then trim_start s' else s
  | EmptyString => EmptyString
  end.

(** Longest prefix of decimal digits, and what follows it. *)
Fixpoint span_digits (s : string) : list Z * string :=
  match s with
  | String c s' =>
      match digit_of_ascii c with
      | Some d => let (ds, r) := span_digits s' in (d :: ds, r)
      | None => ([], s)
      end
  | EmptyString => ([], EmptyString)
  end.

(** Value of a big-endian digit list. *)
Definition digits_value (ds : list Z) : Z :=
  fold_left (fun acc d => 10 * acc + d) ds 0.

Fixpoint string_of_digits (ds : list Z) : string :=
  match ds with
  | [] => EmptyString
  | d :: ds' => String (digit_char d) (string_of_digits ds')
  end.

Fixpoint digits_fuel (fuel : nat) (n : Z) (acc : list Z) : list Z :=
  match fuel with
  | O => acc
  | S f =>
      let acc' := (n mod 10) :: acc in
      if n <? 10 then acc' else digits_fuel f (n / 10) acc'
  end.

(** The decimal digits of [n >= 0], most significant first, no leading
    zero except for [0] itself. *)
Definition digits (n : Z) : list Z :=
  digits_fuel (S (Z.to_nat (Z.log2 n))) n [].

Definition zeros (n : Z) : list Z := repeat 0 (Z.to_nat n).

End Digits.

(* ------------------------------------------------------------------ *)
(** ** Numbers *)

Inductive number :=
| NaN
| Infinity (negative : bool)
| Dec (m e : Z).

Module Number.
Import Digits.

(** [m * 10^e] with trailing zeros of [m] moved into the exponent. *)
Fixpoint normalize_fuel (fuel : nat) (m e : Z) : Z * Z :=
  match fuel with
  | O => (m, e)
  | S f =>
      if m =? 0 then (0, 0)
      else if m mod 10 =? 0 then normalize_fuel f (m / 10) (e + 1)
      else (m, e)
  end.

Definition normalize (m e : Z) : number :=
  let (m', e') := normalize_fuel (S (Z.to_nat (Z.log2 (Z.abs m)))) m e in
  Dec m' e'.

Definition of_Z (n : Z) : number := normalize n 0.

Definition normalized (v : number) : Prop :=
  match v with
  | Dec m e => (m = 0 /\ e = 0) \/ m mod 10 <> 0
  | _ => True
  end.

(** The rational a finite number denotes. *)
Definition value (m e : Z) : Q := inject_Z m * Qpower (inject_Z 10) e.

(** [v >= b] and [v <= b] for an integer bound; false on NaN. *)
Definition geb (v : number) (b : Z) : bool :=
  match v with
  | NaN => false
  | Infinity neg => negb neg
  | Dec m e => Qle_bool (inject_Z b) (value m e)
  end.

Definition leb (v : number) (b : Z) : bool :=
  match v with
  | NaN => false
  | Infinity neg => neg
  | Dec m e => Qle_bool (value m e) (inject_Z b)
  end.

(** Number::toString (radix 10) on a normalized number. *)
Definition exponent_part (n : Z) : string :=
  String "e"
    (String (if 0 <=? n - 1 then "+"%char else "-"%char)
       (string_of_digits (digits (Z.abs (n - 1))))).

Definition unsigned_toString (m e : Z) : string :=
  let s := digits m in
  let k := Z.of_nat (List.length s) in
  let n := k + e in
  if (-5 <=? n) && (n <=? 21) then
    if k <=? n then string_of_digits (s ++ zeros (n - k))
    else if 0 <? n then
      (string_of_digits (firstn (Z.to_nat n) s) ++
       String "." (string_of_digits (skipn (Z.to_nat n) s)))%string
    else
      (String "0" (String "." (string_of_digits (zeros (- n) ++ s))))
  else
    match s with
    | [d] => (string_of_digits [d] ++ exponent_part n)%string
    | d :: ds =>
        (string_of_digits [d] ++
         String "." (string_of_digits ds ++ exponent_part n))%string
    | [] => EmptyString
    end.

Definition toString (v : number) : string :=
  match v with
  | NaN => "NaN"%string
  | Infinity false => "Infinity"%string
  | Infinity true => "-Infinity"%string
  | Dec m e =>
      if m =? 0 then "0"%string
      else if m <? 0 then String "-" (unsigned_toString (- m) e)
      else unsigned_toString m e
  end.

(** Optional sign in front of a numeric literal: the sign and the rest. *)
Definition read_sign (s : string) : bool * string :=
  match s with
  | String "-" s' => (true, s')
  | String "+" s' => (false, s')
  | _ => (false, s)
  end.

Definition apply_sign (neg : bool) (n : Z) : Z := if neg then - n else n.

(** The integers from which binary64 rounds to an infinity. *)
Definition overflow_bound : Z := 2 ^ 1024 - 2 ^ 970.

(** Result of [Number.parseInt]: not a number, an infinity, or an integer. *)
Inductive parsed_int :=
| IntNaN
| IntInfinity (negative : bool)
| Int (n : Z).

(** [Number.parseInt(s, 10)]: leading white space, an optional sign, then
    the longest run of decimal digits; [NaN] when that run is empty. *)
Definition parseInt (s : string) : parsed_int :=
  let (neg, r) := read_sign (trim_start s) in
  match span_digits r with
  | ([], _) => IntNaN
  | (ds, _) =>
      let n := digits_value ds in
      if overflow_bound <=? n then IntInfinity neg else Int (apply_sign neg n)
  end.

Definition isFinite_int (p : parsed_int) : bool :=
  match p with Int _ => true | _ => false end.

(** ExponentPart: [e] or [E], an optional sign, at least one digit. *)
Definition read_exponent (s : string) : Z :=
  match s with
  | String c s' =>
      if (Ascii.eqb c "e" || Ascii.eqb c "E")%bool then
        let (neg, r) := read_sign s' in
        match span_digits r with
        | ([], _) => 0
        | (ds, _) => apply_sign neg (digits_value ds)
        end
      else 0
  | EmptyString => 0
  end.

Definition starts_with (p s : string) : bool := String.prefix p s.

(** StrUnsignedDecimalLiteral other than Infinity: digits, an optional
    fraction, an optional exponent; [NaN] when there is no digit. *)
Definition decimal_literal (neg : bool) (r : string) : number :=
  let (ip, r1) := span_digits r in
  match r1 with
  | String "." r2 =>
      let (fp, r3) := span_digits r2 in
      match ip, fp with
      | [], [] => NaN
      | _, _ =>
          normalize (apply_sign neg (digits_value (ip ++ fp)))
                    (read_exponent r3 - Z.of_nat (List.length fp))
      end
  | _ =>
      match ip with
      | [] => NaN
      | _ => normalize (apply_sign neg (digits_value ip)) (read_exponent r1)
      end
  end.

(** [Number.parseFloat(s)]: the longest prefix that is a StrDecimalLiteral. *)
Definition parseFloat (s : string) : number :=
  let (neg, r) := read_sign (trim_start s) in
  if starts_with "Infinity" r then Infinity neg
  else decimal_literal neg r.

End Number.

(* ------------------------------------------------------------------ *)
(** ** JavaScript values *)

(** JSON values, [undefined], and [JBuiltin] for the function and prototype
    objects every object inherits (only their truthiness is observed). *)
#[warnings="-register-all"]
Inductive jsval :=
| JUndefined
| JNull
| JBool (b : bool)
| JNum (n : number)
| JStr (s : string)
| JArr (items : list jsval)
| JObj (fields : list (string * jsval))
| JBuiltin.

(** ToBoolean. *)
Definition truthy (v : jsval) : bool :=
  match v with
  | JUndefined | JNull => false
  | JBool b => b
  | JNum NaN => false
  | JNum (Infinity _) => true
  | JNum (Dec m _) => negb (m =? 0)
  | JStr s => negb (String.eqb s "")
  | JArr _ | JObj _ | JBuiltin => true
  end.

(** [a || b] and [a && b]. *)
Definition js_or (a b : jsval) : jsval := if truthy a then a else b.
Definition js_and (a b : jsval) : jsval := if truthy a then b else a.

Inductive error :=
| TimeoutError            (* new Error("timeout"), the abort reason *)
| HttpError (status : Z)  (* new Error(`HTTP ${res.status}`) *)
| NetworkError            (* fetch rejected *)
| SyntaxError             (* the body is not JSON *)
| TypeError.              (* property read on null *)

Inductive completion (A : Type) :=
| Normal (a : A)
| Throw (e : error).
Arguments Normal {A} a.
Arguments Throw {A} e.

(* ------------------------------------------------------------------ *)
(** ** URLSearchParams *)

Module SearchParams.

Definition t := list (string * string).

Definition named (k : string) (p : string * string) : bool :=
  String.eqb (fst p) k.

Definition has (s : t) (k : string) : bool := existsb (named k) s.

Definition getAll (s : t) (k : string) : list string :=
  map snd (filter (named k) s).

(** [get] answers [null] ([None]) when the name is absent. *)
Definition get (s : t) (k : string) : option string := hd_error (getAll s k).

Definition append (s : t) (k v : string) : t := s ++ [(k, v)].

Definition delete (s : t) (k : string) : t :=
  filter (fun p => negb (named k p)) s.

(** [set]: overwrite the first pair of that name and drop the others, or
    append when there is none. *)
Fixpoint set (s : t) (k v : string) : t :=
  match s with
  | [] => [(k, v)]
  | p :: s' => if named k p then (k, v) :: delete s' k else p :: set s' k v
  end.

End SearchParams.

(* ------------------------------------------------------------------ *)
(** ** Query (main.mjs, class Query) *)

(** What the constructor reads from the request: the search parameters, the
    CF-Connecting-IP and Accept headers, and the geolocation of [req.cf]. *)
Record Request := {
  searchParams : SearchParams.t;
  connectingIP : option string;
  accept : option string;
  cf_longitude : number;
  cf_latitude : number
}.

Record Query := {
  count : list Z;
  transport : list string;
  ipv4 : bool;
  ipv6 : bool;
  lon : number;
  lat : number;
  network : option string
}.

Module QueryModel.
Import SearchParams.
Local Open Scope string_scope.

(** [ip.includes(":")] *)
Definition includes (s sub : string) : bool :=
  match String.index 0 sub s with Some _ => true | None => false end.

(** ToString of a value that is a string or [null]. *)
Definition ToString (o : option string) : string :=
  match o with Some s => s | None => "null" end.

Definition parseBooleanParam (search : t) (key : string) (dflt : bool) : bool :=
  match get search key with
  | Some v => if v =? "1" then true else if v =? "0" then false else dflt
  | None => dflt
  end.

Definition parseFloatParam (search : t) (key : string) (min max : Z)
    (dflt : number) : number :=
  let v := Number.parseFloat (ToString (get search key)) in
  if Number.geb v min && Number.leb v max then v else dflt.

(** The callback mapped over the [k] values. *)
Definition parseCount (k : string) : Z :=
  let n := Number.parseInt k in
  match n with
  | Number.Int z => Z.max 1 z
  | _ => 1
  end.

(** [new Query(req)] *)
Definition parse (req : Request) : Query :=
  let s := searchParams req in
  let ip := match connectingIP req with Some a => a | None => "" end in
  {| count := map parseCount (if has s "k" then getAll s "k" else ["1"]);
     transport := if has s "cap" then getAll s "cap" else ["udp"];
     ipv4 := parseBooleanParam s "ipv4" true;
     ipv6 := parseBooleanParam s "ipv6" (includes ip ":");
     lon := parseFloatParam s "lon" (-180) 180 (cf_longitude req);
     lat := parseFloatParam s "lat" (-90) 90 (cf_latitude req);
     network := get s "network" |}.

Definition bit (b : bool) : string := if b then "1" else "0".

(** [q.toSearchParams()] *)
Definition toSearchParams (q : Query) : t :=
  let s := [] in
  let s := fold_left (fun s k => append s "k" (Number.toString (Number.of_Z k)))
             (count q) s in
  let s := fold_left (fun s c => append s "cap" c) (transport q) s in
  let s := set s "ipv4" (bit (ipv4 q)) in
  let s := set s "ipv6" (bit (ipv6 q)) in
  let s := set s "lon" (Number.toString (lon q)) in
  let s := set s "lat" (Number.toString (lat q)) in
  match network q with
  | Some n => if n =? "" then s else set s "network" n
  | None => s
  end.

End QueryModel.

(* ------------------------------------------------------------------ *)
(** ** Timeout-bounded calls

    [setTimeout(() => abort.abort(new Error("timeout")), ms)] followed by
    [try { x = await call(abort.signal); clearTimeout(timer); ... } catch
    { console.error(...) }], as both [handleQuery] and [listRouters] write
    it.  The awaiting code observes two kinds of events: the timer firing
    and the network call (fetch and body read) coming to an end. *)

(** How the network call ends when it is left alone. *)
Inductive fetch_result (B : Type) :=
| Rejected (e : error)
| Response (status : Z) (contentType : option string) (body : completion B).
Arguments Rejected {B} e.
Arguments Response {B} status contentType body.

Inductive event (B : Type) :=
| TimerFires
| CallCompletes (r : fetch_result B).
Arguments TimerFires {B}.
Arguments CallCompletes {B} r.

(** [res.ok] *)
Definition ok (status : Z) : bool := (200 <=? status) && (status <=? 299).

Section TimedCall.
Context {B A : Type}.
(** What the async function does with the response once [fetch]
    resolves. *)
Variable after_fetch : fetch_result B -> completion A.

Record call_state := {
  timer_pending : bool;              (* set, neither fired nor cleared *)
  signal_aborted : bool;             (* abort.abort() has run *)
  settled : option (completion A)    (* what the await produced *)
}.

(** After [setTimeout]: the timer is pending and the call in flight. *)
Definition started : call_state :=
  {| timer_pending := true; signal_aborted := false; settled := None |}.

Definition on_event (st : call_state) (ev : event B) : call_state :=
  match ev with
  | TimerFires =>
      if timer_pending st then
        (* the callback aborts; a call still in flight rejects with the
           abort reason *)
        {| timer_pending := false;
           signal_aborted := true;
           settled := match settled st with
                      | None => Some (Throw TimeoutError)
                      | Some c => Some c
                      end |}
      else st
  | CallCompletes r =>
      match settled st with
      | Some _ => st
      | None =>
          let c := after_fetch r in
          (* the try block resumes: clearTimeout(timer) is its next
             statement and runs only when the await did not throw *)
          {| timer_pending := match c with
                              | Normal _ => false
                              | Throw _ => timer_pending st
                              end;
             signal_aborted := signal_aborted st;
             settled := Some c |}
      end
  end.

Definition run (evs : list (event B)) : call_state :=
  fold_left on_event evs started.

(** The await resumes with the first event; [None] while nothing has
    happened yet. *)
Definition await (evs : list (event B))
    : option (completion A * call_state) :=
  match evs with
  | [] => None
  | ev :: _ =>
      let st := on_event started ev in
      match settled st with
      | Some c => Some (c, st)
      | None => None
      end
  end.
End TimedCall.

Arguments call_state A : clear implicits.

(* ------------------------------------------------------------------ *)
(** ** Router directory (testbed.mjs) *)

Record Router := {
  id : jsval;
  position : jsval * jsval;   (* [lon, lat] *)
  host : string;
  udp : jsval;
  wss : jsval
}.

(** [let routers = []; let lastFetch = 0;] *)
Record Cache := {
  routers : list Router;
  lastFetch : Z
}.

Definition initial_cache : Cache := {| routers := []; lastFetch := 0 |}.

Module Testbed.
Local Open Scope string_scope.

Fixpoint lookup (fields : list (string * jsval)) (k : string) : jsval :=
  match fields with
  | [] => JUndefined
  | (k', v) :: rest => if String.eqb k' k then v else lookup rest k
  end.

(** [o.k] for a value that is not null, for the names the parser reads
    (none of them is inherited): an own property of an object, [undefined]
    on anything else. *)
Definition field (o : jsval) (k : string) : jsval :=
  match o with
  | JObj fields => lookup fields k
  | _ => JUndefined
  end.

(** [Object.values(j)]; the fields of an object are listed in the order
    of enumeration. *)
Definition Object_values (j : jsval) : completion (list jsval) :=
  match j with
  | JObj fields => Normal (map snd fields)
  | JArr items => Normal items
  | JStr s =>
      Normal (map (fun c => JStr (String c "")) (list_ascii_of_string s))
  | JNull | JUndefined => Throw TypeError
  | _ => Normal []
  end.

Inductive entry_result :=
| Keep (r : Router)
| Skip
| Raise (e : error).

Section Parser.
(** [new URL(v).host]; [None] when the constructor throws. *)
Variable url_host : jsval -> option string.

(** The preferred position of an entry. *)
Definition preferred_position (o : jsval) : jsval :=
  js_or (field o "_real_position") (field o "position").

(** One iteration of the loop over the entries. *)
Definition parseEntry (o : jsval) : entry_result :=
  match o with
  | JNull | JUndefined => Raise TypeError
  | _ =>
      match preferred_position o with
      | JArr [p0; p1] =>
          match url_host (field o "site") with
          | None => Skip
          | Some h =>
              if (h =? "") || (h =? "0.0.0.0") then Skip
              else Keep {| id := field o "shortname";
                           position := (p1, p0);
                           host := h;
                           udp := field o "fch-enabled";
                           wss := js_and (field o "fch-enabled")
                                         (field o "ws-tls") |}
          end
      | _ => Skip
      end
  end.

Fixpoint parseEntries (os : list jsval) : completion (list Router) :=
  match os with
  | [] => Normal []
  | o :: os' =>
      match parseEntry o with
      | Raise e => Throw e
      | Skip => parseEntries os'
      | Keep r =>
          match parseEntries os' with
          | Normal rs => Normal (r :: rs)
          | Throw e => Throw e
          end
      end
  end.

(** [fetchTestbedNodes], from the point where [fetch] has resolved. *)
Definition fetchTestbedNodes (r : fetch_result jsval)
    : completion (list Router) :=
  match r with
  | Rejected e => Throw e
  | Response status _ body =>
      if negb (ok status) then Throw (HttpError status)
      else
        match body with
        | Throw e => Throw e
        | Normal j =>
            match Object_values j with
            | Throw e => Throw e
            | Normal os => parseEntries os
            end
        end
  end.

(** What one call of [listRouters] did besides returning. *)
Record Listing := {
  listed : list Router;        (* the value returned *)
  cache_after : Cache;
  fetched : bool;              (* a network fetch was started *)
  logged : option error;       (* console.error *)
  timer_left : bool            (* a timer is still pending on return *)
}.

Definition refreshInterval : Z := 3600000.

(** [listRouters()], called at time [now] with the cache [c]; [evs] is
    what happens to the fetch, [now'] the clock once it has returned.
    [None]: the await has not been resumed by any event. *)
Definition listRouters (c : Cache) (now : Z) (evs : list (event jsval))
    (now' : Z) : option Listing :=
  if (lastFetch c + refreshInterval <? now)%Z then
    match await fetchTestbedNodes evs with
    | None => None
    | Some (Normal rs, st) =>
        Some {| listed := rs;
                cache_after := {| routers := rs; lastFetch := now' |};
                fetched := true; logged := None;
                timer_left := timer_pending st |}
    | Some (Throw e, st) =>
        Some {| listed := routers c; cache_after := c;
                fetched := true; logged := Some e;
                timer_left := timer_pending st |}
    end
  else
    Some {| listed := routers c; cache_after := c;
            fetched := false; logged := None; timer_left := false |}.
End Parser.
End Testbed.

(* ------------------------------------------------------------------ *)
(** ** Resolver (main.mjs) *)

(** [Array.prototype.sort(cmp)]: the stable sort the language prescribes,
    here by insertion.  [cmp a b < 0] puts [a] before [b]. *)
Module ArraySort.
Section Sort.
Context {A : Type}.
Variable cmp : A -> A -> Q.

Definition before (a b : A) : bool := negb (Qle_bool 0 (cmp a b)).

Fixpoint insert (x : A) (l : list A) : list A :=
  match l with
  | [] => [x]
  | y :: l' => if before y x then y :: insert x l' else x :: y :: l'
  end.

Definition sort (l : list A) : list A := fold_right insert [] l.
End Sort.

(** Sorting by a numeric key: the comparator [key a - key b], the order it
    asks for, and the elements at one key. *)
Section ByKey.
Context {A : Type}.
Variable key : A -> Q.

Definition cmp (a b : A) : Q := key a - key b.
Definition ascending (a b : A) : Prop := (key a <= key b)%Q.
Definition at_key (v : Q) (a : A) : bool := Qeq_bool (key a) v.
End ByKey.
End ArraySort.

(** [l.slice(0, end)] for an integer [end]. *)
Definition slice0 {A : Type} (l : list A) (e : Z) : list A :=
  if e <? 0 then firstn (Z.to_nat (Z.of_nat (List.length l) + e)) l
  else firstn (Z.to_nat e) l.

(** What the handler hands to [new Response] and its headers. *)
Record Reply := {
  body : string;
  contentType : option string;
  source : string;
  x_fch_query : SearchParams.t
}.

(** What the environment does during one request. *)
Record World := {
  upstream : list (event string);   (* the call to the API server *)
  clock : Z;                        (* Date.now() when listRouters runs *)
  directory : list (event jsval);   (* the fetch of the router list *)
  clock_after : Z                   (* Date.now() after that fetch *)
}.

Module Resolver.
Local Open Scope string_scope.

(** Names every object literal inherits from [Object.prototype]. *)
Definition inherited : list string :=
  ["constructor"; "hasOwnProperty"; "isPrototypeOf"; "propertyIsEnumerable";
   "toLocaleString"; "toString"; "valueOf"; "__proto__";
   "__defineGetter__"; "__defineSetter__"; "__lookupGetter__";
   "__lookupSetter__"].

(** [router[c]] *)
Definition router_get (r : Router) (c : string) : jsval :=
  if c =? "id" then id r
  else if c =? "position" then JArr [fst (position r); snd (position r)]
  else if c =? "host" then JStr (host r)
  else if c =? "udp" then udp r
  else if c =? "wss" then wss r
  else if existsb (String.eqb c) inherited then JBuiltin
  else JUndefined.

(** [q.transport.some((c) => !!router[c])] *)
Definition available (q : Query) (r : Router) : bool :=
  existsb (fun c => truthy (router_get r c)) (transport q).

(** The URL's parameters after the loop of [apiRequest]. *)
Definition request_params (q : Query) : SearchParams.t :=
  fold_left (fun s kv => SearchParams.append s (fst kv) (snd kv))
            (QueryModel.toSearchParams q) [].

(** [apiRequest], from the point where [fetch] has resolved. *)
Definition apiRequest (r : fetch_result string)
    : completion (option string * string) :=
  match r with
  | Rejected e => Throw e
  | Response status ct text =>
      if negb (ok status) then Throw (HttpError status)
      else
        match text with
        | Normal b => Normal (ct, b)
        | Throw e => Throw e
        end
  end.

Section Resolver.
Variable url_host : jsval -> option string.
(** [distance(a, b)] of [@turf/distance] on [lon, lat] pairs; its results
    are taken to be numbers that compare (no NaN), here rationals. *)
Variable distance : jsval * jsval -> jsval * jsval -> Q.

(** The comparator given to [avail.sort]. *)
Definition by_distance (pos : jsval * jsval) (a b : Router) : Q :=
  distance pos (position a) - distance pos (position b).

(** [fallbackLogic], from the point where [listRouters] has returned. *)
Definition select (q : Query) (rs : list Router) : option string * string :=
  let pos := (JNum (lon q), JNum (lat q)) in
  let avail := filter (available q) rs in
  let avail := ArraySort.sort (by_distance pos) avail in
  let picked :=
    match count q with
    | k :: _ => slice0 avail k
    | [] => avail
    end in
  (Some "text/plain", String.concat "," (map host picked)).

(** [fallbackLogic(q)] *)
Definition fallbackLogic (q : Query) (c : Cache) (w : World)
    : option ((option string * string) * Testbed.Listing) :=
  match Testbed.listRouters url_host c (clock w) (directory w)
          (clock_after w) with
  | None => None
  | Some l => Some (select q (Testbed.listed l), l)
  end.

(** What one call of [handleQuery] did besides answering. *)
Record Handled := {
  reply : Reply;
  cache_out : Cache;
  api_timer_left : bool;   (* the 1000 ms timer is pending on return *)
  api_logged : option error;
  listing : option Testbed.Listing
}.

(** [handleQuery(req)] *)
Definition handleQuery (req : Request) (c : Cache) (w : World)
    : option Handled :=
  let q := QueryModel.parse req in
  match await apiRequest (upstream w) with
  | None => None
  | Some (res, st) =>
      let '(contentType, body, source, err) :=
        match res with
        | Normal (ct, b) => (ct, b, "api", None)
        | Throw e => (Some "text/plain", "", "", Some e)
        end in
      if body =? "" then
        match fallbackLogic q c w with
        | None => None
        | Some ((ct, b), l) =>
            Some {| reply := {| body := b; contentType := ct;
                                source := "fallback";
                                x_fch_query := QueryModel.toSearchParams q |};
                    cache_out := Testbed.cache_after l;
                    api_timer_left := timer_pending st;
                    api_logged := err;
                    listing := Some l |}
        end
      else
        Some {| reply := {| body := body; contentType := contentType;
                            source := source;
                            x_fch_query := QueryModel.toSearchParams q |};
                cache_out := c;
                api_timer_left := timer_pending st;
                api_logged := err;
                listing := None |}
  end.
End Resolver.
End Resolver.

(* ------------------------------------------------------------------ *)
(** ** Earlier revisions

    Two points at which the earlier revisions kept in the repository
    differ from the code above. *)

Module Earlier.
Local Open Scope string_scope.

(** main.mjs, earlier constructor:
    [this.cap = url.searchParams.getAll("cap") || ["udp"]]. *)
Definition cap (s : SearchParams.t) : list string :=
  let all := SearchParams.getAll s "cap" in
  if truthy (JArr (map JStr all)) then all else ["udp"].

(** testbed.mjs, earlier [listRouters]: [const lastFetch = 0] is tested but
    never updated. *)
Definition listRouters (url_host : jsval -> option string)
    (cached : list Router) (now : Z) (evs : list (event jsval))
    : option Testbed.Listing :=
  let lastFetch := 0 in
  if (lastFetch + 3600000 <? now)%Z then
    match await (Testbed.fetchTestbedNodes url_host) evs with
    | None => None
    | Some (Normal rs, st) =>
        Some {| Testbed.listed := rs;
                Testbed.cache_after := {| routers := rs; lastFetch := 0 |};
                Testbed.fetched := true; Testbed.logged := None;
                Testbed.timer_left := timer_pending st |}
    | Some (Throw e, st) =>
        Some {| Testbed.listed := cached;
                Testbed.cache_after := {| routers := cached; lastFetch := 0 |};
                Testbed.fetched := true; Testbed.logged := Some e;
                Testbed.timer_left := timer_pending st |}
    end
  else
    Some {| Testbed.listed := cached;
            Testbed.cache_after := {| routers := cached; lastFetch := 0 |};
            Testbed.fetched := false; Testbed.logged := None;
            Testbed.timer_left := false |}.

End Earlier.

(* ------------------------------------------------------------------ *)
(** ** Vocabulary of the statements *)

Module Spec.
Import SearchParams QueryModel Resolver.
Local Open Scope string_scope.
Local Open Scope list_scope.

Definition is_digit (d : Z) : Prop := 0 <= d <= 9.

(** A string at which a run of digits ends. *)
Definition stops (r : string) : Prop :=
  match r with
  | EmptyString => True
  | String c _ => Digits.digit_of_ascii c = None
  end.

Definition leading_digit (s : string) : Prop :=
  exists d r, is_digit d /\ s = String (Digits.digit_char d) r.

(** A number is finite and lies in [[min, max]]. *)
Definition in_range (v : number) (min max : Z) : Prop :=
  exists m e,
    v = Dec m e
    /\ (inject_Z min <= Number.value m e)%Q
    /\ (Number.value m e <= inject_Z max)%Q.

(** The network parameter as [toSearchParams] emits it. *)
Definition network_param (q : Query) : SearchParams.t :=
  match network q with
  | Some n => if n =? "" then [] else [("network", n)]
  | None => []
  end.

(** The parameter list [toSearchParams] is to build. *)
Definition emitted (q : Query) : SearchParams.t :=
  map (fun k => ("k", Number.toString (Number.of_Z k))) (count q)
  ++ map (fun c => ("cap", c)) (transport q)
  ++ [("ipv4", bit (ipv4 q)); ("ipv6", bit (ipv6 q));
      ("lon", Number.toString (lon q)); ("lat", Number.toString (lat q))]
  ++ network_param q.

(** The request the API server receives for [q]; the caller's address and
    the geolocation hints are those of the forwarding hop. *)
Definition forwarded (q : Query) (ip' acc' : option string)
    (hlon hlat : number) : Request :=
  {| searchParams := toSearchParams q; connectingIP := ip'; accept := acc';
     cf_longitude := hlon; cf_latitude := hlat |}.

(** A router has a true capability flag among the requested names. *)
Definition has_true_flag (q : Query) (r : Router) : Prop :=
  exists c, In c (transport q) /\
    ((c = "udp" /\ truthy (udp r) = true) \/
     (c = "wss" /\ truthy (wss r) = true)).

(** A requested name is a truthy property of the router object. *)
Definition names_truthy_property (q : Query) (r : Router) : Prop :=
  exists c, In c (transport q) /\ truthy (router_get r c) = true.

(** Distance of a router from the position of a query. *)
Definition remoteness (distance : jsval * jsval -> jsval * jsval -> Q)
    (q : Query) (r : Router) : Q :=
  distance (JNum (lon q), JNum (lat q)) (position r).

(** The ways a directory fetch fails: the timer fires first, the network
    call is rejected, the status is not 2xx, or the body cannot be read as
    JSON. *)
Inductive failing_fetch : list (event jsval) -> error -> Prop :=
| fails_timeout evs :
    failing_fetch (TimerFires :: evs) TimeoutError
| fails_network e evs :
    failing_fetch (CallCompletes (Rejected e) :: evs) e
| fails_status status ct b evs :
    ok status = false ->
    failing_fetch (CallCompletes (Response status ct b) :: evs)
                  (HttpError status)
| fails_body status ct e evs :
    ok status = true ->
    failing_fetch (CallCompletes (Response status ct (Throw e)) :: evs) e.

(** The upstream attempt came back, before the timer, with a 2xx status and
    a non-empty body [b] of content type [ct]. *)
Definition upstream_success (evs : list (event string)) (ct : option string)
    (b : string) : Prop :=
  exists status rest,
    evs = CallCompletes (Response status ct (Normal b)) :: rest
    /\ ok status = true /\ b <> "".

End Spec.

(* ------------------------------------------------------------------ *)
(** ** A sample environment

    Stand-ins for the two external functions, and a small directory, on
    which the statements below are instantiated. *)

Module Sample.
Local Open Scope string_scope.

Fixpoint until_slash (s : string) : string :=
  match s with
  | String c s' => if Ascii.eqb c "/" then "" else String c (until_slash s')
  | EmptyString => ""
  end.

(** Host of an [https://host/path] string; anything else is refused. *)
Definition url_host (v : jsval) : option string :=
  match v with
  | JStr s =>
      if String.prefix "https://" s
      then Some (until_slash (String.substring 8 (String.length s - 8) s))
      else None
  | _ => None
  end.

Definition coordinate (v : jsval) : Q :=
  match v with
  | JNum (Dec m e) => Number.value m e
  | _ => 0
  end.

(** Squared planar distance: orders points on a small map as the
    great-circle distance does. *)
Definition distance (a b : jsval * jsval) : Q :=
  (coordinate (fst a) - coordinate (fst b)) ^ 2
  + (coordinate (snd a) - coordinate (snd b)) ^ 2.

Definition num (z : Z) : jsval := JNum (Number.of_Z z).

Definition entry (name site : string) (lat lon : Z) (enabled tls : bool)
    : jsval :=
  JObj [("shortname", JStr name); ("site", JStr site);
        ("position", JArr [num lat; num lon]);
        ("fch-enabled", JBool enabled); ("ws-tls", JBool tls)].

Definition router (h : string) (lon lat : Z) (u w : bool) : Router :=
  {| id := JStr h; position := (num lon, num lat); host := h;
     udp := JBool u; wss := JBool w |}.

(** The directory of the scenario: a and b serve UDP, c does not. *)
Definition testbed : list Router :=
  [router "a" 0 0 true false; router "b" 10 10 true false;
   router "c" 1 1 false false].

Definition request (params : SearchParams.t) : Request :=
  {| searchParams := params; connectingIP := Some "192.0.2.1";
     accept := None; cf_longitude := Dec 0 0; cf_latitude := Dec 0 0 |}.

(** A cache filled at time 1000 and asked again one second later. *)
Definition cache : Cache := {| routers := testbed; lastFetch := 1000 |}.

Definition quiet : World :=
  {| upstream := [TimerFires]; clock := 2000;
     directory := [TimerFires]; clock_after := 4000 |}.

End Sample.

(* ------------------------------------------------------------------ *)
(** ** fetch.mjs: aborting a fetch without AbortController

    [FetchAbortController], [FetchAbortSignal] and [abortableFetch].  One
    controller and its signal; every call of [abortableFetch] returns a new
    race promise, numbered in order.  The signal's [callback] is the
    [reject] of one of them, or the initial no-op. *)

Module FetchAbort.

(** How a race has ended: as [fetch(req)] did, or rejected through the
    signal's callback with the value the callback was given ([None] is
    [undefined]). *)
Inductive outcome (B : Type) :=
| AsFetch (r : fetch_result B)
| RejectedWith (v : option error).
Arguments AsFetch {B} r.
Arguments RejectedWith {B} v.

Record store (B : Type) := {
  aborted : bool;                      (* signal.aborted *)
  callback : option nat;               (* signal.callback; None: () => {} *)
  races : list (option (outcome B))    (* None while pending *)
}.
Arguments aborted {B} s.
Arguments callback {B} s.
Arguments races {B} s.

(** [new FetchAbortController()] *)
Definition created {B : Type} : store B :=
  {| aborted := false; callback := None; races := [] |}.

Fixpoint update {T : Type} (i : nat) (x : T) (l : list T) : list T :=
  match l, i with
  | [], _ => []
  | _ :: l', O => x :: l'
  | y :: l', S i' => y :: update i' x l'
  end.

(** Resolving or rejecting a promise changes it only while it is pending. *)
Definition settle {B : Type} (id : nat) (o : outcome B)
    (rs : list (option (outcome B))) : list (option (outcome B)) :=
  match nth_error rs id with
  | Some None => update id (Some o) rs
  | _ => rs
  end.

Inductive op (B : Type) :=
| Call (own : bool)
    (* abortableFetch(req, signal); [own]: signal instanceof FetchAbortSignal,
       the signal of this controller *)
| Abort (reason : option error)
    (* controller.abort(reason) *)
| FetchSettles (id : nat) (r : fetch_result B).
    (* fetch(req) of call [id] resolves or rejects *)
Arguments Call {B} own.
Arguments Abort {B} reason.
Arguments FetchSettles {B} id r.

Definition step {B : Type} (st : store B) (o : op B) : store B :=
  match o with
  | Call own =>
      (* the executor runs at once: callback = reject, then reject() when
         the signal is aborted already *)
      {| aborted := aborted st;
         callback := if own then Some (List.length (races st))
                     else callback st;
         races := races st ++
                  [if own && aborted st then Some (RejectedWith None)
                   else None] |}
  | Abort _ =>
      (* abort() takes no parameter and calls this.signal.callback() *)
      {| aborted := true;
         callback := callback st;
         races := match callback st with
                  | Some id => settle id (RejectedWith None) (races st)
                  | None => races st
                  end |}
  | FetchSettles id r =>
      {| aborted := aborted st;
         callback := callback st;
         races := settle id (AsFetch r) (races st) |}
  end.

Definition run {B : Type} (ops : list (op B)) (st : store B) : store B :=
  fold_left step ops st.

(** The state of race [id]: [None] when there is no such call, [Some None]
    while it is pending. *)
Definition race {B : Type} (st : store B) (id : nat)
    : option (option (outcome B)) :=
  nth_error (races st) id.

End FetchAbort.

(* ------------------------------------------------------------------ *)
(** ** main.mjs, the revision with a single [k]

    [class Query] and [fallbackLogic] as they were when [k] was one number
    and [cap] was read with [getAll("cap") || ["udp"]]. *)

Module Revision1.
Import SearchParams QueryModel.
Local Open Scope string_scope.

Record Query := {
  k : Z;
  cap : list string;
  ipv4 : bool;
  ipv6 : bool;
  lon : number;
  lat : number
}.

(** [this.k = Number.parseInt(url.searchParams.get("k"), 10);
    if (!Number.isFinite(this.k) || this.k < 1) this.k = 1;] *)
Definition parse_k (s : SearchParams.t) : Z :=
  match Number.parseInt (ToString (get s "k")) with
  | Number.Int z => if (z <? 1)%Z then 1 else z
  | _ => 1
  end.

(** [new Query(req)] *)
Definition parse (req : Request) : Query :=
  let s := searchParams req in
  let ip := match connectingIP req with
            | Some a => if a =? "" then "" else a
            | None => ""
            end in
  {| k := parse_k s;
     cap := Earlier.cap s;
     ipv4 := parseBooleanParam s "ipv4" true;
     ipv6 := parseBooleanParam s "ipv6" (includes ip ":");
     lon := parseFloatParam s "lon" (-180) 180 (cf_longitude req);
     lat := parseFloatParam s "lat" (-90) 90 (cf_latitude req) |}.

(** [q.toSearchParams()] *)
Definition toSearchParams (q : Query) : SearchParams.t :=
  let s := [] in
  let s := set s "k" (Number.toString (Number.of_Z (k q))) in
  let s := fold_left (fun s c => append s "cap" c) (cap q) s in
  let s := set s "ipv4" (bit (ipv4 q)) in
  let s := set s "ipv6" (bit (ipv6 q)) in
  let s := set s "lon" (Number.toString (lon q)) in
  set s "lat" (Number.toString (lat q)).

(** [fallbackLogic], from the point where [listRouters] has returned. *)
Definition select (distance : jsval * jsval -> jsval * jsval -> Q)
    (q : Query) (rs : list Router) : option string * string :=
  let pos := (JNum (lon q), JNum (lat q)) in
  let avail :=
    filter (fun r => existsb (fun c => truthy (Resolver.router_get r c))
                             (cap q)) rs in
  let avail := ArraySort.sort (Resolver.by_distance distance pos) avail in
  (Some "text/plain", String.concat "," (map host (slice0 avail (k q)))).

End Revision1.

(* ------------------------------------------------------------------ *)
(** ** More vocabulary *)

Module Terms.
Local Open Scope string_scope.

(** The routers of the entries [parseEntry] keeps, in order. *)
Definition kept (url_host : jsval -> option string) (os : list jsval)
    : list Router :=
  flat_map (fun o => match Testbed.parseEntry url_host o with
                     | Testbed.Keep r => [r]
                     | _ => []
                     end) os.

Definition nullish (o : jsval) : Prop := o = JNull \/ o = JUndefined.

Definition valid_host (r : Router) : Prop :=
  host r <> "" /\ host r <> "0.0.0.0".

(** A JSON document that is a number, a boolean or a string. *)
Definition scalar (j : jsval) : Prop :=
  match j with
  | JBool _ | JNum _ | JStr _ => True
  | _ => False
  end.

(** The call came to an end before the timer, with an exception. *)
Definition fails_early {B A : Type}
    (after_fetch : fetch_result B -> completion A) (evs : list (event B))
    : Prop :=
  exists r e rest, evs = CallCompletes r :: rest /\ after_fetch r = Throw e.

(** The routers [fallbackLogic] filters out of a list, and then sorts. *)
Definition candidates (q : Query) (rs : list Router) : list Router :=
  filter (Resolver.available q) rs.

Definition ranking (distance : jsval * jsval -> jsval * jsval -> Q)
    (q : Query) (rs : list Router) : list Router :=
  ArraySort.sort (Resolver.by_distance distance (JNum (lon q), JNum (lat q)))
                 (candidates q rs).

(** The first event of the upstream call is a response the handler
    forwards. *)
Definition forwards (evs : list (event string)) : Prop :=
  exists status ct b rest,
    evs = CallCompletes (Response status ct (Normal b)) :: rest
    /\ ok status = true /\ b <> "".

End Terms.

(* ================================================================== *)
(** * Properties *)

(** ** Digits and numbers *)

Module DigitFacts.
Import Digits Spec.

Lemma digit_cases (d : Z) :
  is_digit d ->
  d = 0 \/ d = 1 \/ d = 2 \/ d = 3 \/ d = 4 \/
  d = 5 \/ d = 6 \/ d = 7 \/ d = 8 \/ d = 9.
Proof. unfold is_digit. lia. Qed.

Lemma digit_of_digit_char (d : Z) :
  is_digit d -> digit_of_ascii (digit_char d) = Some d.
Proof.
  intro H. apply digit_cases in H.
  repeat (destruct H as [-> | H]; [reflexivity |]). now subst.
Qed.

Lemma digit_of_ascii_range (c : ascii) (d : Z) :
  digit_of_ascii c = Some d -> is_digit d.
Proof.
  unfold digit_of_ascii, is_digit.
  destruct ((48 <=? code c) && (code c <=? 57)) eqn:E; [| discriminate].
  intro H. injection H as <-. apply andb_true_iff in E. lia.
Qed.

Lemma span_digits_range (s : string) :
  Forall is_digit (fst (span_digits s)).
Proof.
  induction s as [| c s IH]; simpl; [constructor |].
  destruct (digit_of_ascii c) as [d |] eqn:E; [| constructor].
  destruct (span_digits s) as [ds r]. simpl in *.
  constructor; [eapply digit_of_ascii_range; eassumption | assumption].
Qed.

Lemma string_of_digits_app (a b : list Z) :
  string_of_digits (a ++ b) =
    (string_of_digits a ++ string_of_digits b)%string.
Proof.
  induction a as [| d a IH]; simpl; [reflexivity | now rewrite IH].
Qed.

(** Reading back a printed run of digits, whatever follows it. *)
Lemma span_digits_app (ds : list Z) (rest : string) :
  Forall is_digit ds ->
  span_digits (string_of_digits ds ++ rest) =
    (ds ++ fst (span_digits rest), snd (span_digits rest)).
Proof.
  induction 1 as [| d ds Hd _ IH]; simpl.
  - now destruct (span_digits rest).
  - rewrite (digit_of_digit_char d Hd), IH. reflexivity.
Qed.

Lemma append_empty_r (s : string) : (s ++ "")%string = s.
Proof.
  induction s as [| c s IH]; simpl; [reflexivity | now rewrite IH].
Qed.

Lemma span_digits_all (ds : list Z) :
  Forall is_digit ds -> span_digits (string_of_digits ds) = (ds, EmptyString).
Proof.
  intro H. rewrite <- (append_empty_r (string_of_digits ds)).
  rewrite span_digits_app by assumption. simpl. now rewrite app_nil_r.
Qed.

Lemma span_digits_stop (ds : list Z) (c : ascii) (rest : string) :
  Forall is_digit ds -> digit_of_ascii c = None ->
  span_digits (string_of_digits ds ++ String c rest) = (ds, String c rest).
Proof.
  intros H Hc. rewrite (span_digits_app _ _ H). simpl. rewrite Hc. simpl.
  now rewrite app_nil_r.
Qed.

Lemma Forall_firstn_skipn {T : Type} (P : T -> Prop) (n : nat) (l : list T) :
  Forall P l -> Forall P (firstn n l) /\ Forall P (skipn n l).
Proof.
  intro H. rewrite <- (firstn_skipn n l) in H. now apply Forall_app in H.
Qed.

Lemma fold_value (ds : list Z) (acc : Z) :
  fold_left (fun a d => 10 * a + d) ds acc =
    acc * 10 ^ Z.of_nat (List.length ds) + digits_value ds.
Proof.
  unfold digits_value. revert acc.
  induction ds as [| d ds IH]; intro acc.
  - simpl. lia.
  - cbn [fold_left]. rewrite (IH (10 * acc + d)), (IH (10 * 0 + d)).
    change (List.length (d :: ds)) with (S (List.length ds)).
    rewrite Nat2Z.inj_succ, Z.pow_succ_r by lia. ring.
Qed.

Lemma digits_value_app (a b : list Z) :
  digits_value (a ++ b) =
    digits_value a * 10 ^ Z.of_nat (List.length b) + digits_value b.
Proof.
  unfold digits_value at 1. rewrite fold_left_app.
  fold (digits_value a). apply fold_value.
Qed.

Lemma zeros_length (n : Z) : 0 <= n -> Z.of_nat (List.length (zeros n)) = n.
Proof. intro H. unfold zeros. rewrite repeat_length. lia. Qed.

Lemma zeros_range (n : Z) : Forall is_digit (zeros n).
Proof.
  unfold zeros. induction (Z.to_nat n); simpl; constructor;
    [unfold is_digit; lia | assumption].
Qed.

Lemma digits_value_zeros (n : Z) : digits_value (zeros n) = 0.
Proof.
  unfold zeros, digits_value.
  induction (Z.to_nat n) as [| k IH]; simpl; [reflexivity | exact IH].
Qed.

(** What [digits_fuel] computes, given fuel for every digit. *)
Lemma digits_fuel_spec (f : nat) :
  forall n acc,
    0 <= n < 2 ^ Z.of_nat (S f) ->
    exists ds,
      digits_fuel (S f) n acc = ds ++ acc
      /\ Forall is_digit ds
      /\ digits_value ds = n
      /\ ds <> []
      /\ (0 < n -> 10 ^ (Z.of_nat (List.length ds) - 1) <= n).
Proof.
  induction f as [| f IH]; intros n acc Hn.
  - change (2 ^ Z.of_nat 1) with 2 in Hn.
    assert ((n <? 10) = true) as E by (apply Z.ltb_lt; lia).
    simpl. rewrite E. exists [n mod 10].
    assert (n mod 10 = n) as -> by (apply Z.mod_small; lia).
    split; [| split; [| split; [| split]]].
    + reflexivity.
    + constructor; [unfold is_digit; lia | constructor].
    + unfold digits_value; simpl; lia.
    + discriminate.
    + simpl. lia.
  - change (digits_fuel (S (S f)) n acc)
      with (if n <? 10 then (n mod 10) :: acc
            else digits_fuel (S f) (n / 10) ((n mod 10) :: acc)).
    destruct (n <? 10) eqn:E.
    + apply Z.ltb_lt in E. exists [n mod 10].
      assert (n mod 10 = n) as -> by (apply Z.mod_small; lia).
      split; [| split; [| split; [| split]]].
      * reflexivity.
      * constructor; [unfold is_digit; lia | constructor].
      * unfold digits_value; simpl; lia.
      * discriminate.
      * simpl. lia.
    + apply Z.ltb_ge in E.
      assert (0 <= n / 10 < 2 ^ Z.of_nat (S f)) as Hq.
      { split; [apply Z.div_pos; lia |].
        apply Z.div_lt_upper_bound; [lia |].
        replace (Z.of_nat (S (S f))) with (Z.succ (Z.of_nat (S f))) in Hn
          by lia.
        rewrite Z.pow_succ_r in Hn by lia. lia. }
      destruct (IH (n / 10) ((n mod 10) :: acc) Hq)
        as (ds & -> & Hr & Hv & Hne & Hlen).
      exists (ds ++ [n mod 10]).
      split; [| split; [| split; [| split]]].
      * now rewrite <- app_assoc.
      * apply Forall_app. split; [assumption |].
        constructor; [| constructor].
        unfold is_digit. pose proof (Z.mod_pos_bound n 10). lia.
      * rewrite digits_value_app, Hv. unfold digits_value; simpl.
        pose proof (Z.div_mod n 10). lia.
      * now destruct ds.
      * intros _. rewrite length_app. simpl.
        assert (0 < n / 10) as Hq0 by (apply Z.div_str_pos; lia).
        specialize (Hlen Hq0).
        replace (Z.of_nat (List.length ds + 1) - 1)
          with (Z.succ (Z.of_nat (List.length ds) - 1)) by lia.
        assert (0 < List.length ds)%nat
          by (destruct ds; [congruence | simpl; lia]).
        rewrite Z.pow_succ_r by lia.
        pose proof (Z.div_mod n 10). pose proof (Z.mod_pos_bound n 10). lia.
Qed.

Lemma digits_spec (n : Z) :
  0 <= n ->
  Forall is_digit (digits n)
  /\ digits_value (digits n) = n
  /\ digits n <> []
  /\ (0 < n -> 10 ^ (Z.of_nat (List.length (digits n)) - 1) <= n).
Proof.
  intro Hn. unfold digits.
  destruct (digits_fuel_spec (Z.to_nat (Z.log2 n)) n []) as (ds & -> & H).
  - split; [assumption |].
    replace (Z.of_nat (S (Z.to_nat (Z.log2 n)))) with (Z.succ (Z.log2 n))
      by (pose proof (Z.log2_nonneg n); lia).
    destruct (Z.eq_dec n 0) as [-> | Hn0]; [simpl; lia |].
    apply Z.log2_spec. lia.
  - now rewrite app_nil_r.
Qed.

End DigitFacts.

Module NumberFacts.
Import Digits DigitFacts Number Spec.

Lemma ten_divides (m : Z) : m mod 10 = 0 -> m = 10 * (m / 10).
Proof. intro H. pose proof (Z.div_mod m 10). lia. Qed.

Lemma normalize_fuel_pow (j : nat) :
  forall f m e,
    m mod 10 <> 0 -> (j < f)%nat ->
    normalize_fuel f (m * 10 ^ Z.of_nat j) e = (m, e + Z.of_nat j).
Proof.
  induction j as [| j IH]; intros f m e Hm Hf;
    (destruct f as [| f]; [lia |]).
  - simpl Z.of_nat. rewrite Z.pow_0_r, Z.mul_1_r, Z.add_0_r. simpl.
    assert (m <> 0) as Hm0 by (intros ->; now apply Hm).
    apply Z.eqb_neq in Hm0. apply Z.eqb_neq in Hm. now rewrite Hm0, Hm.
  - rewrite Nat2Z.inj_succ, Z.pow_succ_r by lia.
    assert (m <> 0) as Hm0 by (intros ->; now apply Hm).
    assert (0 < 10 ^ Z.of_nat j) as Hp by (apply Z.pow_pos_nonneg; lia).
    replace (m * (10 * 10 ^ Z.of_nat j)) with (m * 10 ^ Z.of_nat j * 10)
      by ring.
    cbn [normalize_fuel].
    assert (m * 10 ^ Z.of_nat j * 10 <> 0) as Hn0 by nia.
    apply Z.eqb_neq in Hn0. rewrite Hn0.
    rewrite Z.mod_mul, Z.div_mul by lia. simpl (0 =? 0).
    rewrite IH by (assumption || lia). f_equal. lia.
Qed.

Lemma normalize_pow (m e j : Z) :
  m mod 10 <> 0 -> 0 <= j -> normalize (m * 10 ^ j) e = Dec m (e + j).
Proof.
  intros Hm Hj. unfold normalize.
  assert (m <> 0) as Hm0 by (intros ->; now apply Hm).
  rewrite <- (Z2Nat.id j Hj) at 2.
  rewrite normalize_fuel_pow; [now rewrite Z2Nat.id | assumption |].
  assert (j <= Z.log2 (Z.abs (m * 10 ^ j))); [| lia].
  rewrite <- (Z.log2_pow2 j Hj) at 1. apply Z.log2_le_mono.
  rewrite Z.abs_mul, (Z.abs_eq (10 ^ j)) by (apply Z.pow_nonneg; lia).
  assert (2 ^ j <= 10 ^ j) by (apply Z.pow_le_mono_l; lia).
  assert (0 < 2 ^ j) by (apply Z.pow_pos_nonneg; lia).
  nia.
Qed.

Lemma normalize_id (m e : Z) : m mod 10 <> 0 -> normalize m e = Dec m e.
Proof.
  intro Hm. pose proof (normalize_pow m e 0 Hm (Z.le_refl 0)) as H.
  rewrite Z.pow_0_r, Z.mul_1_r, Z.add_0_r in H. exact H.
Qed.

Lemma normalize_zero (e : Z) : normalize 0 e = Dec 0 0.
Proof. reflexivity. Qed.

(** Every non-zero integer is a mantissa free of trailing zeros times a
    power of ten, and [normalize] finds them. *)
Lemma normalize_fuel_spec (f : nat) :
  forall m e,
    m <> 0 -> Z.abs m < 2 ^ Z.of_nat f ->
    exists m' j,
      normalize_fuel f m e = (m', e + j)
      /\ 0 <= j /\ m' mod 10 <> 0 /\ m = m' * 10 ^ j.
Proof.
  induction f as [| f IH]; intros m e Hm Hb.
  - simpl in Hb. lia.
  - cbn [normalize_fuel].
    destruct (Z.eqb_spec m 0) as [| _]; [contradiction |].
    destruct (Z.eqb_spec (m mod 10) 0) as [H10 | H10].
    + pose proof (ten_divides m H10) as Hdiv.
      assert (m / 10 <> 0) as Hq by lia.
      assert (Z.abs (m / 10) < 2 ^ Z.of_nat f) as Hqb.
      { rewrite Nat2Z.inj_succ, Z.pow_succ_r in Hb by lia. lia. }
      destruct (IH (m / 10) (e + 1) Hq Hqb) as (m' & j & -> & Hj & Hm' & Heq).
      exists m', (j + 1). split; [f_equal; lia |].
      split; [lia |]. split; [assumption |].
      rewrite Z.pow_add_r, Z.pow_1_r by lia. lia.
    + exists m, 0. rewrite Z.add_0_r, Z.pow_0_r, Z.mul_1_r.
      repeat split; (assumption || lia).
Qed.

Lemma normalize_spec (m e : Z) :
  m <> 0 ->
  exists m' j,
    normalize m e = Dec m' (e + j)
    /\ 0 <= j /\ m' mod 10 <> 0 /\ m = m' * 10 ^ j.
Proof.
  intro Hm. unfold normalize.
  destruct (normalize_fuel_spec (S (Z.to_nat (Z.log2 (Z.abs m)))) m e Hm)
    as (m' & j & -> & H); [| now exists m', j].
  replace (Z.of_nat (S (Z.to_nat (Z.log2 (Z.abs m)))))
    with (Z.succ (Z.log2 (Z.abs m)))
    by (pose proof (Z.log2_nonneg (Z.abs m)); lia).
  apply Z.log2_spec. lia.
Qed.

Lemma normalize_normalized (m e : Z) : normalized (normalize m e).
Proof.
  destruct (Z.eq_dec m 0) as [-> | Hm].
  - rewrite normalize_zero. simpl. now left.
  - destruct (normalize_spec m e Hm) as (m' & j & -> & _ & H & _).
    simpl. now right.
Qed.

Lemma apply_sign_mul (neg : bool) (a b : Z) :
  apply_sign neg (a * b) = apply_sign neg a * b.
Proof. destruct neg; simpl; ring. Qed.

Lemma opp_mod10 (m : Z) : m mod 10 <> 0 -> (- m) mod 10 <> 0.
Proof.
  intros H H'. apply H.
  apply Z.mod_divide in H'; [| lia]. apply Z.mod_divide; [lia |].
  apply (proj1 (Z.divide_opp_r 10 m)). exact H'.
Qed.

Lemma apply_sign_mod10 (neg : bool) (m : Z) :
  m mod 10 <> 0 -> apply_sign neg m mod 10 <> 0.
Proof. destruct neg; simpl; [apply opp_mod10 | trivial]. Qed.

End NumberFacts.

(** ** Printing a number and reading it back *)

Module PrintParse.
Import Digits DigitFacts Number NumberFacts Spec.

Lemma if_nonempty {T : Type} (l : list Z) (a b : T) :
  l <> [] -> match l with [] => a | _ :: _ => b end = b.
Proof. now destruct l. Qed.

Lemma if_nonempty2 {T : Type} (l l' : list Z) (a b : T) :
  l ++ l' <> [] ->
  match l, l' with [], [] => a | _, _ => b end = b.
Proof. destruct l, l'; simpl; congruence. Qed.

(** Digits alone. *)
Lemma decimal_literal_integer (neg : bool) (ip : list Z) :
  Forall is_digit ip -> ip <> [] ->
  decimal_literal neg (string_of_digits ip) =
    normalize (apply_sign neg (digits_value ip)) 0.
Proof.
  intros Hr Hne. unfold decimal_literal.
  rewrite span_digits_all by assumption.
  now rewrite if_nonempty.
Qed.

(** Digits, a point, digits, then something that is not a digit. *)
Lemma span_digits_stops (ds : list Z) (r : string) :
  Forall is_digit ds -> stops r ->
  span_digits (string_of_digits ds ++ r)%string = (ds, r).
Proof.
  intros Hr Hs. rewrite span_digits_app by assumption.
  destruct r as [| c r]; simpl in *.
  - now rewrite app_nil_r.
  - rewrite Hs. simpl. now rewrite app_nil_r.
Qed.

Lemma decimal_literal_fraction (neg : bool) (ip fp : list Z) (r : string) :
  Forall is_digit ip -> Forall is_digit fp -> ip ++ fp <> [] -> stops r ->
  decimal_literal neg
    (string_of_digits ip ++ String "." (string_of_digits fp ++ r))%string =
    normalize (apply_sign neg (digits_value (ip ++ fp)))
              (read_exponent r - Z.of_nat (List.length fp)).
Proof.
  intros Hi Hf Hne Hs. unfold decimal_literal.
  rewrite (span_digits_stops ip) by (assumption || reflexivity).
  rewrite (span_digits_stops fp) by assumption.
  now rewrite if_nonempty2.
Qed.

(** Digits and an exponent. *)
Lemma decimal_literal_exponent (neg : bool) (ip : list Z) (r : string) :
  Forall is_digit ip -> ip <> [] ->
  decimal_literal neg (string_of_digits ip ++ String "e" r)%string =
    normalize (apply_sign neg (digits_value ip)) (read_exponent (String "e" r)).
Proof.
  intros Hi Hne. unfold decimal_literal.
  rewrite (span_digits_stops ip) by (assumption || reflexivity).
  now rewrite if_nonempty.
Qed.

Lemma read_exponent_part (n : Z) : read_exponent (exponent_part n) = n - 1.
Proof.
  unfold exponent_part, read_exponent.
  change (Ascii.eqb "e" "e" || Ascii.eqb "e" "E")%bool with true. cbv iota.
  destruct (digits_spec (Z.abs (n - 1)) (Z.abs_nonneg _))
    as (Hr & Hv & Hne & _).
  destruct (0 <=? n - 1) eqn:E.
  - change (read_sign (String "+" ?s)) with (false, s).
    cbv iota beta. rewrite span_digits_all by assumption.
    rewrite if_nonempty by assumption. rewrite Hv. simpl.
    apply Z.leb_le in E. lia.
  - change (read_sign (String "-" ?s)) with (true, s).
    cbv iota beta. rewrite span_digits_all by assumption.
    rewrite if_nonempty by assumption. rewrite Hv. simpl.
    apply Z.leb_gt in E. lia.
Qed.

Lemma stops_exponent_part (n : Z) : stops (exponent_part n).
Proof. reflexivity. Qed.

(** The literal printed for a positive mantissa reads back as the number. *)
Lemma decimal_literal_unsigned (neg : bool) (m e : Z) :
  0 < m -> m mod 10 <> 0 ->
  decimal_literal neg (unsigned_toString m e) = Dec (apply_sign neg m) e.
Proof.
  intros Hm H10.
  destruct (digits_spec m (Z.lt_le_incl _ _ Hm)) as (Hr & Hv & Hne & _).
  pose proof (apply_sign_mod10 neg m H10) as Hs10.
  unfold unsigned_toString.
  set (s := digits m) in *.
  set (k := Z.of_nat (List.length s)).
  assert (1 <= k) as Hk
    by (unfold k; destruct s; [congruence | simpl List.length; lia]).
  destruct ((-5 <=? k + e) && (k + e <=? 21)) eqn:Erange.
  - destruct (k <=? k + e) eqn:E1; [| destruct (0 <? k + e) eqn:E2].
    + (* an integer: the digits, then zeros *)
      apply Z.leb_le in E1.
      rewrite decimal_literal_integer.
      * rewrite digits_value_app, digits_value_zeros, Hv, zeros_length by lia.
        rewrite Z.add_0_r, apply_sign_mul, normalize_pow by (assumption || lia).
        f_equal. lia.
      * apply Forall_app. split; [assumption | apply zeros_range].
      * destruct s; [congruence | discriminate].
    + (* the point inside the digits *)
      apply Z.leb_gt in E1. apply Z.ltb_lt in E2.
      rewrite <- (append_empty_r (string_of_digits (skipn _ s))).
      rewrite decimal_literal_fraction.
      * rewrite firstn_skipn, Hv, length_skipn.
        change (read_exponent ""%string) with 0.
        rewrite normalize_id by assumption. f_equal. unfold k in *. lia.
      * now apply Forall_firstn_skipn.
      * now apply Forall_firstn_skipn.
      * now rewrite firstn_skipn.
      * exact I.
    + (* zero, the point, zeros, the digits *)
      apply Z.leb_gt in E1. apply Z.ltb_ge in E2.
      change (String "0"
                (String "." (string_of_digits (zeros (- (k + e)) ++ s))))
        with (string_of_digits [0] ++
              String "." (string_of_digits (zeros (- (k + e)) ++ s)))%string.
      rewrite <- (append_empty_r (string_of_digits (zeros _ ++ s))).
      rewrite decimal_literal_fraction.
      * rewrite !digits_value_app, digits_value_zeros, Hv, length_app.
        change (read_exponent ""%string) with 0.
        change (digits_value [0]) with 0.
        rewrite Nat2Z.inj_add, zeros_length by lia.
        replace (0 * 10 ^ (- (k + e) + Z.of_nat (List.length s)) +
                 (0 * 10 ^ Z.of_nat (List.length s) + m)) with m by ring.
        rewrite normalize_id by assumption. f_equal. unfold k. lia.
      * constructor; [unfold is_digit; lia | constructor].
      * apply Forall_app. split; [apply zeros_range | assumption].
      * discriminate.
      * exact I.
  - (* exponential notation *)
    destruct s as [| d [| d' ds]]; [congruence | |].
    + unfold exponent_part.
      rewrite decimal_literal_exponent by (assumption || discriminate).
      fold (exponent_part (k + e)).
      rewrite read_exponent_part, Hv, normalize_id by assumption.
      f_equal. assert (k = 1) by reflexivity. lia.
    + rewrite decimal_literal_fraction.
      * change ([d] ++ d' :: ds) with (d :: d' :: ds).
        rewrite read_exponent_part, Hv, normalize_id by assumption.
        f_equal. unfold k. cbn [List.length]. lia.
      * inversion Hr; subst. constructor; [assumption | constructor].
      * now inversion Hr.
      * discriminate.
      * apply stops_exponent_part.
Qed.

Lemma leading_digit_plain (s : string) :
  leading_digit s ->
  trim_start s = s /\ read_sign s = (false, s)
  /\ starts_with "Infinity"%string s = false.
Proof.
  intros (d & r & Hd & ->). apply digit_cases in Hd.
  repeat (destruct Hd as [-> | Hd]; [repeat split |]).
  subst. repeat split.
Qed.

Lemma string_of_digits_leading (ds : list Z) (r : string) :
  Forall is_digit ds -> ds <> [] ->
  leading_digit (string_of_digits ds ++ r)%string.
Proof.
  intros Hr Hne. destruct ds as [| d ds]; [congruence |].
  inversion Hr; subst. now exists d, (string_of_digits ds ++ r)%string.
Qed.

Lemma unsigned_toString_leading (m e : Z) :
  0 < m -> leading_digit (unsigned_toString m e).
Proof.
  intro Hm.
  destruct (digits_spec m (Z.lt_le_incl _ _ Hm)) as (Hr & _ & Hne & _).
  unfold unsigned_toString.
  set (s := digits m) in *. set (k := Z.of_nat (List.length s)).
  assert (1 <= k) as Hk
    by (unfold k; destruct s; [congruence | simpl List.length; lia]).
  destruct ((-5 <=? k + e) && (k + e <=? 21)).
  - destruct (k <=? k + e); [| destruct (0 <? k + e) eqn:E2].
    + rewrite string_of_digits_app.
      now apply string_of_digits_leading.
    + apply Z.ltb_lt in E2. apply string_of_digits_leading.
      * now apply Forall_firstn_skipn.
      * destruct s; [congruence |].
        destruct (Z.to_nat (k + e)) eqn:En; [lia | discriminate].
    + exists 0, (String "." (string_of_digits (zeros (- (k + e)) ++ s))).
      split; [unfold is_digit; lia | reflexivity].
  - destruct s as [| d [| d' ds]]; [congruence | |];
      apply string_of_digits_leading;
      try discriminate; inversion Hr; subst;
      (constructor; [assumption | constructor]).
Qed.

(** Number::toString followed by [parseFloat] gives the number back. *)
Theorem parseFloat_toString (v : number) :
  normalized v -> parseFloat (toString v) = v.
Proof.
  destruct v as [| [|] | m e]; try reflexivity.
  intros [[-> ->] | H10]; [reflexivity |].
  assert (m <> 0) as Hm0 by (intros ->; now apply H10).
  unfold toString. destruct (Z.eqb_spec m 0) as [| _]; [contradiction |].
  destruct (Z.ltb_spec m 0) as [Hneg | Hpos].
  - unfold parseFloat.
    change (trim_start (String "-" ?s)) with (String "-" s).
    change (read_sign (String "-" ?s)) with (true, s). cbv iota beta.
    destruct (leading_digit_plain _ (unsigned_toString_leading (- m) e
                                       ltac:(lia))) as (_ & _ & ->).
    rewrite decimal_literal_unsigned by (lia || now apply opp_mod10).
    simpl. f_equal. lia.
  - unfold parseFloat.
    destruct (leading_digit_plain _ (unsigned_toString_leading m e
                                       ltac:(lia))) as (-> & -> & ->).
    now rewrite decimal_literal_unsigned by (lia || assumption).
Qed.

Lemma parseFloat_normalized (s : string) : normalized (parseFloat s).
Proof.
  unfold parseFloat. destruct (read_sign (trim_start s)) as [neg r].
  destruct (starts_with "Infinity"%string r); [exact I |].
  unfold decimal_literal. destruct (span_digits r) as [ip r1].
  assert (forall m e (l : list Z),
            normalized match l with
                       | [] => NaN
                       | _ :: _ => normalize m e
                       end) as Hl
    by (intros m e [| ? ?]; [exact I | apply normalize_normalized]).
  destruct r1 as [| c r2]; [apply Hl |].
  destruct (Ascii.eqb_spec c ".") as [-> | Hc].
  - destruct (span_digits r2) as [fp r3].
    destruct ip, fp; try exact I; apply normalize_normalized.
  - destruct c as [[|] [|] [|] [|] [|] [|] [|] [|]];
      try apply Hl; congruence.
Qed.

(** An integer below 10^21 is printed as its digits and read back by
    [parseInt]. *)
Theorem parseInt_toString (n : Z) :
  1 <= n < 10 ^ 21 -> parseInt (toString (of_Z n)) = Int n.
Proof.
  intros [Hn1 Hn21]. unfold of_Z.
  destruct (normalize_spec n 0 ltac:(lia)) as (m & j & -> & Hj & H10 & ->).
  assert (0 < 10 ^ j) as Hp by (apply Z.pow_pos_nonneg; lia).
  assert (0 < m) as Hm by nia.
  destruct (digits_spec m (Z.lt_le_incl _ _ Hm)) as (Hr & Hv & Hne & Hlen).
  specialize (Hlen Hm).
  unfold toString.
  destruct (Z.eqb_spec m 0) as [| _]; [lia |].
  destruct (Z.ltb_spec m 0) as [| _]; [lia |].
  unfold parseInt.
  destruct (leading_digit_plain _ (unsigned_toString_leading m (0 + j) Hm))
    as (-> & -> & _).
  unfold unsigned_toString.
  set (s := digits m) in *. set (k := Z.of_nat (List.length s)) in *.
  assert (1 <= k) as Hk
    by (unfold k; destruct s; [congruence | simpl List.length; lia]).
  assert (k + (0 + j) <= 21) as H21.
  { destruct (Z.le_gt_cases (k + (0 + j)) 21) as [| Hgt]; [assumption |].
    exfalso.
    assert (10 ^ 21 <= 10 ^ (k - 1 + j)) by (apply Z.pow_le_mono_r; lia).
    rewrite Z.pow_add_r in * by lia. nia. }
  assert ((-5 <=? k + (0 + j)) && (k + (0 + j) <=? 21) = true) as ->
    by (apply andb_true_iff; split; [apply Z.leb_le | apply Z.leb_le]; lia).
  assert ((k <=? k + (0 + j)) = true) as -> by (apply Z.leb_le; lia).
  rewrite span_digits_all
    by (apply Forall_app; split; [assumption | apply zeros_range]).
  rewrite if_nonempty by (destruct s; [congruence | discriminate]).
  rewrite digits_value_app, digits_value_zeros, Hv, zeros_length by lia.
  replace (k + (0 + j) - k) with j by lia. rewrite Z.add_0_r.
  assert ((overflow_bound <=? m * 10 ^ j) = false) as ->.
  { apply Z.leb_gt. eapply Z.lt_trans; [exact Hn21 |]. reflexivity. }
  reflexivity.
Qed.

End PrintParse.

(** ** Sorting by a numeric key *)

Module ArraySortFacts.
Import ArraySort.
Section ByKey.
Context {A : Type}.
Variable key : A -> Q.
Lemma before_lt (a b : A) : before (cmp key) a b = true <-> (key a < key b)%Q.
Proof.
  unfold before, cmp. rewrite negb_true_iff.
  destruct (Qle_bool 0 (key a - key b)) eqn:E.
  - apply Qle_bool_iff in E. split; [discriminate | intro; lra].
  - split; [intros _ | reflexivity].
    apply Qnot_le_lt. intro H.
    assert (Qle_bool 0 (key a - key b) = true) as E'
      by (apply Qle_bool_iff; lra).
    congruence.
Qed.

Lemma before_false (a b : A) :
  before (cmp key) a b = false <-> (key b <= key a)%Q.
Proof.
  split; intro H.
  - apply Qnot_lt_le. intro L. apply before_lt in L. congruence.
  - destruct (before (cmp key) a b) eqn:E; [| reflexivity].
    apply before_lt in E. lra.
Qed.

Lemma insert_perm (x : A) (l : list A) :
  Permutation (insert (cmp key) x l) (x :: l).
Proof.
  induction l as [| y l IH]; simpl.
  - apply Permutation_refl.
  - destruct (before (cmp key) y x).
    + apply Permutation_trans with (y :: x :: l).
      * now apply perm_skip.
      * apply perm_swap.
    + apply Permutation_refl.
Qed.

Lemma sort_perm (l : list A) : Permutation (sort (cmp key) l) l.
Proof.
  induction l as [| x l IH]; simpl.
  - apply perm_nil.
  - eapply Permutation_trans; [apply insert_perm |].
    now apply perm_skip.
Qed.

Lemma insert_sorted (x : A) (l : list A) :
  StronglySorted (ascending key) l ->
  StronglySorted (ascending key) (insert (cmp key) x l).
Proof.
  induction l as [| y l IH]; simpl; intro S.
  - constructor; constructor.
  - inversion S as [| ? ? Sl Fy]; subst.
    destruct (before (cmp key) y x) eqn:E.
    + apply before_lt in E.
      constructor; [now apply IH |].
      apply Forall_forall. intros z Hz.
      apply (Permutation_in _ (insert_perm x l)) in Hz.
      destruct Hz as [<- | Hz].
      * unfold ascending. lra.
      * rewrite Forall_forall in Fy. now apply Fy.
    + apply before_false in E.
      constructor; [assumption |].
      constructor; [exact E |].
      apply Forall_forall. intros z Hz.
      rewrite Forall_forall in Fy. specialize (Fy z Hz).
      unfold ascending in *. lra.
Qed.

Lemma sort_sorted (l : list A) :
  StronglySorted (ascending key) (sort (cmp key) l).
Proof.
  induction l as [| x l IH]; simpl.
  - constructor.
  - now apply insert_sorted.
Qed.

(** Stability: the elements at any one key keep their order. *)
Lemma insert_stable (v : Q) (x : A) (l : list A) :
  filter (at_key key v) (insert (cmp key) x l) = filter (at_key key v) (x :: l).
Proof.
  induction l as [| y l IH]; simpl; [reflexivity |].
  destruct (before (cmp key) y x) eqn:E; [| reflexivity].
  apply before_lt in E. simpl. simpl in IH. rewrite IH.
  unfold at_key.
  destruct (Qeq_bool (key x) v) eqn:Ex; [| reflexivity].
  destruct (Qeq_bool (key y) v) eqn:Ey; [| reflexivity].
  apply Qeq_bool_iff in Ex. apply Qeq_bool_iff in Ey. lra.
Qed.

Lemma sort_stable (v : Q) (l : list A) :
  filter (at_key key v) (sort (cmp key) l) = filter (at_key key v) l.
Proof.
  induction l as [| x l IH]; simpl; [reflexivity |].
  rewrite insert_stable. simpl. now rewrite IH.
Qed.

Lemma at_key_same (a b : A) : (key a == key b)%Q -> at_key key (key b) a = true.
Proof. intro H. now apply Qeq_bool_iff. Qed.

Lemma head_is_least (x y : A) (l l' : list A) :
  StronglySorted (ascending key) (x :: l) ->
  filter (at_key key (key y)) (x :: l) = y :: l' ->
  (key x <= key y)%Q.
Proof.
  intros S H.
  assert (In y (x :: l)) as Hin.
  { apply (proj1 (filter_In (at_key key (key y)) y (x :: l))).
    rewrite H. now left. }
  inversion S as [| ? ? _ F]; subst.
  destruct Hin as [<- | Hin]; [apply Qle_refl |].
  rewrite Forall_forall in F. now apply F.
Qed.

(** An ascending list is determined by its elements at each key taken in
    order: stable sorting has one result. *)
Lemma sorted_stable_unique (l1 : list A) :
  forall l2,
    StronglySorted (ascending key) l1 ->
    StronglySorted (ascending key) l2 ->
    (forall v, filter (at_key key v) l1 = filter (at_key key v) l2) ->
    l1 = l2.
Proof.
  induction l1 as [| x l1 IH]; intros l2 S1 S2 H.
  - destruct l2 as [| y l2]; [reflexivity |].
    specialize (H (key y)). simpl in H.
    rewrite (at_key_same y y (Qeq_refl _)) in H. discriminate H.
  - destruct l2 as [| y l2].
    + specialize (H (key x)). simpl in H.
      rewrite (at_key_same x x (Qeq_refl _)) in H. discriminate H.
    + assert (key x <= key y)%Q as Hxy.
      { pose proof (H (key y)) as Hy.
        change (filter (at_key key (key y)) (y :: l2))
          with (if at_key key (key y) y
                then y :: filter (at_key key (key y)) l2
                else filter (at_key key (key y)) l2) in Hy.
        rewrite (at_key_same y y (Qeq_refl _)) in Hy.
        eapply head_is_least; eassumption. }
      assert (key y <= key x)%Q as Hyx.
      { pose proof (H (key x)) as Hx. symmetry in Hx.
        change (filter (at_key key (key x)) (x :: l1))
          with (if at_key key (key x) x
                then x :: filter (at_key key (key x)) l1
                else filter (at_key key (key x)) l1) in Hx.
        rewrite (at_key_same x x (Qeq_refl _)) in Hx.
        eapply head_is_least; eassumption. }
      assert (x = y) as <-.
      { pose proof (H (key x)) as Hx. simpl in Hx.
        rewrite (at_key_same x x (Qeq_refl _)) in Hx.
        rewrite (at_key_same y x (Qle_antisym _ _ Hyx Hxy)) in Hx.
        now injection Hx. }
      f_equal. apply IH.
      * now inversion S1.
      * now inversion S2.
      * intro v. specialize (H v). simpl in H.
        destruct (at_key key v x); [now injection H | exact H].
Qed.
End ByKey.
End ArraySortFacts.

(** ** Query parsing: shape of [count] *)

Module QueryFacts.
Import SearchParams QueryModel.
Local Open Scope string_scope.

Lemma has_getAll (s : t) (k : string) :
  has s k = true -> getAll s k <> [].
Proof.
  unfold has, getAll. induction s as [| p s IH]; simpl; [discriminate |].
  destruct (named k p); simpl; [discriminate | exact IH].
Qed.

Lemma parseCount_min (k : string) : 1 <= parseCount k.
Proof.
  unfold parseCount. destruct (Number.parseInt k); lia.
Qed.

Lemma count_head (req : Request) :
  exists k rest, count (parse req) = k :: rest /\ 1 <= k.
Proof.
  unfold parse; simpl.
  destruct (has (searchParams req) "k") eqn:H.
  - apply has_getAll in H.
    destruct (getAll (searchParams req) "k") as [| v vs]; [congruence |].
    simpl. eexists _, _. split; [reflexivity | apply parseCount_min].
  - simpl. eexists _, _. split; [reflexivity | apply parseCount_min].
Qed.

Lemma count_min (req : Request) : Forall (fun n => 1 <= n) (count (parse req)).
Proof.
  unfold parse; simpl. apply Forall_forall. intros n Hn.
  apply in_map_iff in Hn. destruct Hn as (k & <- & _).
  apply parseCount_min.
Qed.

End QueryFacts.

(** ** Query parsing *)

Module ParseFacts.
Import SearchParams QueryModel Spec.
Local Open Scope string_scope.

Lemma index_head (s1 : string) (b : ascii) (s2 : string) :
  index 0 s1 (String b s2) =
    if prefix s1 (String b s2) then Some 0%nat
    else match index 0 s1 s2 with Some n => Some (S n) | None => None end.
Proof. reflexivity. Qed.

Lemma prefix_char (a b : ascii) (s : string) :
  prefix (String a "") (String b s) = if ascii_dec a b then true else false.
Proof.
  change (prefix (String a "") (String b s))
    with (if ascii_dec a b then prefix "" s else false).
  destruct (ascii_dec a b); [now destruct s | reflexivity].
Qed.

Lemma includes_colon (s : string) :
  includes s ":" = true <-> In ":"%char (list_ascii_of_string s).
Proof.
  unfold includes. induction s as [| b s IH].
  - simpl. split; [discriminate | tauto].
  - rewrite index_head, prefix_char.
    change (list_ascii_of_string (String b s))
      with (b :: list_ascii_of_string s).
    destruct (ascii_dec ":" b) as [<- | Hb].
    + split; [intros _; now left | reflexivity].
    + destruct (index 0 ":" s).
      * split; [intros _; right; now apply IH | reflexivity].
      * split; [discriminate |].
        intros [H | H]; [congruence |]. apply IH in H. discriminate.
Qed.

Lemma parseBooleanParam_cases (s : t) (key : string) (dflt : bool) :
  (get s key = Some "1" -> parseBooleanParam s key dflt = true)
  /\ (get s key = Some "0" -> parseBooleanParam s key dflt = false)
  /\ (get s key <> Some "1" -> get s key <> Some "0" ->
      parseBooleanParam s key dflt = dflt).
Proof.
  unfold parseBooleanParam. repeat split.
  - now intros ->.
  - now intros ->.
  - intros H1 H0. destruct (get s key) as [v |]; [| reflexivity].
    destruct (String.eqb_spec v "1"); [congruence |].
    destruct (String.eqb_spec v "0"); [congruence | reflexivity].
Qed.

Lemma in_range_iff (v : number) (min max : Z) :
  Number.geb v min && Number.leb v max = true <-> in_range v min max.
Proof.
  rewrite andb_true_iff. unfold in_range. split.
  - destruct v as [| neg | m e]; simpl.
    + intros [H _]; discriminate.
    + destruct neg; intros [H1 H2]; discriminate.
    + intros [H1 H2]. exists m, e.
      apply Qle_bool_iff in H1. apply Qle_bool_iff in H2. auto.
  - intros (m & e & -> & H1 & H2). simpl.
    split; now apply Qle_bool_iff.
Qed.

Lemma parseFloatParam_cases (s : t) (key : string) (min max : Z)
    (dflt : number) :
  let v := Number.parseFloat (ToString (get s key)) in
  (in_range v min max ->
   parseFloatParam s key min max dflt = v
   /\ in_range (parseFloatParam s key min max dflt) min max)
  /\ (~ in_range v min max -> parseFloatParam s key min max dflt = dflt).
Proof.
  intro v. unfold parseFloatParam. fold v.
  destruct (Number.geb v min && Number.leb v max) eqn:E.
  - apply in_range_iff in E. split; [auto | tauto].
  - split; [| reflexivity].
    intro H. apply in_range_iff in H. congruence.
Qed.

(** C5.  [new Query(req)] is a total function of the parameters and the
    client hints, and its result has: [count] a list of integers each at
    least 1, [[1]] without a [k] parameter; [transport] [["udp"]] without
    a [cap] parameter; [ipv4] true and [ipv6] true exactly when the caller's
    address contains ":" unless the parameter says "1" or "0"; [lon] and
    [lat] the parsed parameter when that lies in [[-180,180]], resp.
    [[-90,90]], and the hint of [req.cf] otherwise. *)
Theorem parse_defaults (req : Request) :
  let q := parse req in
  let s := searchParams req in
  let ip := match connectingIP req with Some a => a | None => "" end in
  Forall (fun n => 1 <= n) (count q)
  /\ (has s "k" = false -> count q = [1])
  /\ (has s "cap" = false -> transport q = ["udp"])
  /\ (get s "ipv4" <> Some "1" -> get s "ipv4" <> Some "0" -> ipv4 q = true)
  /\ (get s "ipv6" <> Some "1" -> get s "ipv6" <> Some "0" ->
      (ipv6 q = true <-> In ":"%char (list_ascii_of_string ip)))
  /\ (let v := Number.parseFloat (ToString (get s "lon")) in
      (in_range v (-180) 180 -> lon q = v /\ in_range (lon q) (-180) 180)
      /\ (~ in_range v (-180) 180 -> lon q = cf_longitude req))
  /\ (let v := Number.parseFloat (ToString (get s "lat")) in
      (in_range v (-90) 90 -> lat q = v /\ in_range (lat q) (-90) 90)
      /\ (~ in_range v (-90) 90 -> lat q = cf_latitude req)).
Proof.
  intros q s ip.
  split; [| split; [| split; [| split; [| split; [| split]]]]].
  - apply QueryFacts.count_min.
  - intro H. unfold q, parse; simpl. fold s. now rewrite H.
  - intro H. unfold q, parse; simpl. fold s. now rewrite H.
  - intros H1 H0. unfold q, parse; simpl.
    now apply parseBooleanParam_cases.
  - intros H1 H0. unfold q, parse; simpl. fold s ip.
    destruct (parseBooleanParam_cases s "ipv6" (includes ip ":"))
      as (_ & _ & ->); try assumption.
    apply includes_colon.
  - apply parseFloatParam_cases.
  - apply parseFloatParam_cases.
Qed.

End ParseFacts.
(** ** Serialization and parsing again *)

Module RoundTripFacts.
Import SearchParams QueryModel Spec.
Local Open Scope string_scope.
Local Open Scope list_scope.

Lemma fold_append {T : Type} (key : string) (f : T -> string) (l : list T)
    (s : t) :
  fold_left (fun s x => append s key (f x)) l s =
    (s ++ map (fun x => (key, f x)) l)%list.
Proof.
  revert s. induction l as [| x l IH]; intro s; simpl.
  - now rewrite app_nil_r.
  - rewrite IH. unfold append. now rewrite <- app_assoc.
Qed.

Lemma set_absent (s : t) (k v : string) :
  has s k = false -> set s k v = (s ++ [(k, v)])%list.
Proof.
  unfold has. induction s as [| p s IH]; simpl; [reflexivity |].
  destruct (named k p); simpl; [discriminate |].
  intro H. now rewrite IH.
Qed.

Lemma has_app (a b : t) (k : string) : has (a ++ b) k = has a k || has b k.
Proof. unfold has. apply existsb_app. Qed.

Lemma getAll_app (a b : t) (k : string) :
  getAll (a ++ b) k = (getAll a k ++ getAll b k)%list.
Proof. unfold getAll. now rewrite filter_app, map_app. Qed.

Lemma has_tagged {T : Type} (key k : string) (f : T -> string) (l : list T) :
  key <> k -> has (map (fun x => (key, f x)) l) k = false.
Proof.
  intro H. unfold has. induction l as [| x l IH]; simpl; [reflexivity |].
  rewrite IH. unfold named; cbn -[String.eqb].
  apply String.eqb_neq in H. now rewrite H.
Qed.

Lemma has_tagged_same {T : Type} (key : string) (f : T -> string) (l : list T) :
  l <> [] -> has (map (fun x => (key, f x)) l) key = true.
Proof.
  destruct l as [| x l]; [congruence |]. intros _.
  unfold has; simpl. unfold named; simpl. now rewrite String.eqb_refl.
Qed.

Lemma getAll_tagged {T : Type} (key k : string) (f : T -> string)
    (l : list T) :
  key <> k -> getAll (map (fun x => (key, f x)) l) k = [].
Proof.
  intro H. unfold getAll. induction l as [| x l IH]; simpl; [reflexivity |].
  unfold named at 1; cbn -[String.eqb].
  apply String.eqb_neq in H. now rewrite H.
Qed.

Lemma getAll_tagged_same {T : Type} (key : string) (f : T -> string)
    (l : list T) :
  getAll (map (fun x => (key, f x)) l) key = map f l.
Proof.
  unfold getAll. induction l as [| x l IH]; simpl; [reflexivity |].
  unfold named at 1; simpl. rewrite String.eqb_refl. simpl. now rewrite IH.
Qed.

Lemma toSearchParams_emitted (q : Query) : toSearchParams q = emitted q.
Proof.
  unfold toSearchParams, emitted.
  rewrite !fold_append. simpl app.
  set (ks := map (fun k => ("k", Number.toString (Number.of_Z k))) (count q)).
  set (cs := map (fun c => ("cap", c)) (transport q)).
  assert (forall k, "k" <> k -> has ks k = false) as Hk
    by (intros; now apply has_tagged).
  assert (forall k, "cap" <> k -> has cs k = false) as Hc
    by (intros; now apply has_tagged).
  rewrite !(set_absent (_ ++ _))
    by (rewrite !has_app, Hk, Hc by discriminate; reflexivity).
  unfold network_param. destruct (network q) as [n |].
  - destruct (n =? "").
    + rewrite <- !app_assoc. reflexivity.
    + rewrite set_absent
        by (rewrite !has_app, Hk, Hc by discriminate; reflexivity).
      rewrite <- !app_assoc. reflexivity.
  - rewrite <- !app_assoc. reflexivity.
Qed.

Lemma request_params_toSearchParams (q : Query) :
  Resolver.request_params q = toSearchParams q.
Proof.
  unfold Resolver.request_params.
  generalize (toSearchParams q). intro l.
  assert (forall s, fold_left
            (fun s kv => append s (fst kv) (snd kv)) l s = (s ++ l)%list) as H.
  { induction l as [| [k v] l IH]; intro s; simpl.
    - now rewrite app_nil_r.
    - rewrite IH. unfold append. now rewrite <- app_assoc. }
  apply H.
Qed.

Lemma network_param_other (q : Query) (k : string) :
  "network" <> k -> getAll (network_param q) k = [] .
Proof.
  intro H. apply String.eqb_neq in H. unfold network_param.
  destruct (network q) as [n |]; [| reflexivity].
  destruct (n =? ""); [reflexivity |].
  unfold getAll, named. cbn -[String.eqb]. now rewrite H.
Qed.

Lemma getAll_emitted (q : Query) :
  getAll (emitted q) "k" =
    map (fun k => Number.toString (Number.of_Z k)) (count q)
  /\ getAll (emitted q) "cap" = transport q
  /\ get (emitted q) "ipv4" = Some (bit (ipv4 q))
  /\ get (emitted q) "ipv6" = Some (bit (ipv6 q))
  /\ get (emitted q) "lon" = Some (Number.toString (lon q))
  /\ get (emitted q) "lat" = Some (Number.toString (lat q))
  /\ get (emitted q) "network" =
       match network q with
       | Some n => if n =? "" then None else Some n
       | None => None
       end.
Proof.
  unfold get, emitted. rewrite !getAll_app.
  repeat split.
  - rewrite getAll_tagged_same, getAll_tagged, network_param_other
      by discriminate.
    simpl. now rewrite app_nil_r.
  - rewrite getAll_tagged_same, getAll_tagged, network_param_other
      by discriminate.
    simpl. rewrite app_nil_r. apply map_id.
  - now rewrite !getAll_tagged by discriminate.
  - now rewrite !getAll_tagged by discriminate.
  - now rewrite !getAll_tagged by discriminate.
  - now rewrite !getAll_tagged by discriminate.
  - rewrite !getAll_tagged by discriminate. simpl.
    unfold network_param. destruct (network q) as [n |]; [| reflexivity].
    destruct (n =? "") eqn:E; [reflexivity |].
    unfold getAll; simpl. unfold named; simpl. reflexivity.
Qed.

Lemma parseBoolean_bit (s : t) (key : string) (b dflt : bool) :
  get s key = Some (bit b) -> parseBooleanParam s key dflt = b.
Proof. unfold parseBooleanParam. intros ->. now destruct b. Qed.

Lemma lon_normalized (req : Request) :
  Number.normalized (cf_longitude req) -> Number.normalized (lon (parse req)).
Proof.
  intro H. unfold parse; simpl. unfold parseFloatParam.
  destruct (_ && _); [apply PrintParse.parseFloat_normalized | exact H].
Qed.

Lemma lat_normalized (req : Request) :
  Number.normalized (cf_latitude req) -> Number.normalized (lat (parse req)).
Proof.
  intro H. unfold parse; simpl. unfold parseFloatParam.
  destruct (_ && _); [apply PrintParse.parseFloat_normalized | exact H].
Qed.

Lemma parseFloatParam_again (s : t) (key : string) (min max : Z)
    (v dflt : number) :
  Number.normalized v ->
  get s key = Some (Number.toString v) ->
  (in_range v min max -> parseFloatParam s key min max dflt = v)
  /\ (~ in_range v min max ->
      parseFloatParam s key min max dflt = dflt).
Proof.
  intros Hn Hget.
  pose proof (ParseFacts.parseFloatParam_cases s key min max dflt) as H.
  rewrite Hget in H. simpl in H.
  rewrite PrintParse.parseFloat_toString in H by assumption.
  destruct H as [H1 H2]. split; [intro Hr; now apply H1 | exact H2].
Qed.

Lemma parseCount_toString (k : Z) :
  1 <= k < 10 ^ 21 -> parseCount (Number.toString (Number.of_Z k)) = k.
Proof.
  intro H. unfold parseCount.
  rewrite PrintParse.parseInt_toString by assumption.
  lia.
Qed.

(** C6, as amended.  [toSearchParams] emits one [k] per count, one [cap] per
    transport, [ipv4] and [ipv6] as "1" or "0", [lon] and [lat] as printed
    numbers, and [network] when it is a non-empty string.  Parsing a request
    with exactly these parameters gives back [transport], [ipv4] and [ipv6];
    [count] when every entry is below 10^21; [lon] and [lat] when they lie
    in range, and the new request's hints otherwise; and [network], an empty
    string coming back as absent. *)
Theorem serialize_parse (req : Request) (ip' acc' : option string)
    (hlon hlat : number) :
  Number.normalized (cf_longitude req) ->
  Number.normalized (cf_latitude req) ->
  let q := parse req in
  let q' := parse (forwarded q ip' acc' hlon hlat) in
  toSearchParams q = emitted q
  /\ (Forall (fun k => k < 10 ^ 21) (count q) -> count q' = count q)
  /\ transport q' = transport q
  /\ ipv4 q' = ipv4 q
  /\ ipv6 q' = ipv6 q
  /\ (in_range (lon q) (-180) 180 -> lon q' = lon q)
  /\ (~ in_range (lon q) (-180) 180 -> lon q' = hlon)
  /\ (in_range (lat q) (-90) 90 -> lat q' = lat q)
  /\ (~ in_range (lat q) (-90) 90 -> lat q' = hlat)
  /\ network q' =
       match network q with
       | Some n => if n =? "" then None else Some n
       | None => None
       end.
Proof.
  intros Hlon Hlat q q'.
  pose proof (toSearchParams_emitted q) as Hem.
  destruct (getAll_emitted q) as (Gk & Gcap & G4 & G6 & Glon & Glat & Gnet).
  rewrite <- Hem in Gk, Gcap, G4, G6, Glon, Glat, Gnet.
  destruct (QueryFacts.count_head req) as (k0 & krest & Hcount & _).
  fold q in Hcount.
  assert (transport q <> []) as Htr.
  { unfold q, parse; simpl.
    destruct (has (searchParams req) "cap") eqn:E; [| discriminate].
    now apply QueryFacts.has_getAll. }
  assert (has (toSearchParams q) "k" = true) as Hk.
  { rewrite Hem. unfold emitted.
    rewrite has_app, has_tagged_same; [reflexivity |].
    rewrite Hcount. discriminate. }
  assert (has (toSearchParams q) "cap" = true) as Hc.
  { rewrite Hem. unfold emitted.
    rewrite !has_app, has_tagged_same by assumption.
    now rewrite orb_true_r. }
  split; [exact Hem |].
  split; [| split; [| split; [| split; [| split;
    [| split; [| split; [| split]]]]]]].
  - intro Hsmall. unfold q' at 1, parse, forwarded; simpl.
    rewrite Hk, Gk, map_map.
    transitivity (map (fun k => k) (count q)); [| apply map_id].
    apply map_ext_in.
    intros k Hin. apply parseCount_toString. split.
    + pose proof (QueryFacts.count_min req) as Hge.
      rewrite Forall_forall in Hge. now apply Hge.
    + rewrite Forall_forall in Hsmall. now apply Hsmall.
  - unfold q' at 1, parse, forwarded; simpl. now rewrite Hc, Gcap.
  - unfold q' at 1, parse, forwarded; simpl. now apply parseBoolean_bit.
  - unfold q' at 1, parse, forwarded; simpl. now apply parseBoolean_bit.
  - unfold q' at 1, parse, forwarded; simpl.
    apply parseFloatParam_again; [now apply lon_normalized | exact Glon].
  - unfold q' at 1, parse, forwarded; simpl.
    apply parseFloatParam_again; [now apply lon_normalized | exact Glon].
  - unfold q' at 1, parse, forwarded; simpl.
    apply parseFloatParam_again; [now apply lat_normalized | exact Glat].
  - unfold q' at 1, parse, forwarded; simpl.
    apply parseFloatParam_again; [now apply lat_normalized | exact Glat].
  - unfold q' at 1, parse, forwarded; simpl. exact Gnet.
Qed.

End RoundTripFacts.

(** ** Timeout-bounded calls *)

Module TimedCallFacts.
Section Race.
Context {B A : Type}.
Variable after_fetch : fetch_result B -> completion A.

Lemma settled_stays (evs : list (event B)) (st : call_state A)
    (c : completion A) :
  settled st = Some c ->
  settled (fold_left (on_event after_fetch) evs st) = Some c.
Proof.
  revert st. induction evs as [| ev evs IH]; intros st H; simpl.
  - exact H.
  - apply IH. destruct ev as [| r]; simpl.
    + destruct (timer_pending st); simpl; [now rewrite H | exact H].
    + now rewrite H.
Qed.

Lemma aborted_stays (evs : list (event B)) (st : call_state A) :
  signal_aborted st = true ->
  signal_aborted (fold_left (on_event after_fetch) evs st) = true.
Proof.
  revert st. induction evs as [| ev evs IH]; intros st H; simpl.
  - exact H.
  - apply IH. destruct ev as [| r]; simpl.
    + now destruct (timer_pending st).
    + now destruct (settled st).
Qed.

(** The first event decides, and nothing after it changes the outcome. *)
Lemma first_event_wins (ev : event B) (evs : list (event B)) :
  settled (run after_fetch (ev :: evs)) =
    Some match ev with
         | TimerFires => Throw TimeoutError
         | CallCompletes r => after_fetch r
         end
  /\ (ev = TimerFires ->
      signal_aborted (run after_fetch (ev :: evs)) = true).
Proof.
  unfold run. simpl. split.
  - apply settled_stays. now destruct ev.
  - intros ->. now apply aborted_stays.
Qed.

Lemma await_first (ev : event B) (evs : list (event B)) :
  exists st,
    await after_fetch (ev :: evs) =
      Some (match ev with
            | TimerFires => Throw TimeoutError
            | CallCompletes r => after_fetch r
            end, st)
    /\ st = on_event after_fetch started ev.
Proof.
  eexists. split; [| reflexivity]. now destruct ev.
Qed.
End Race.
End TimedCallFacts.

(** ** Router directory *)

Module TestbedFacts.
Import Testbed Spec.
Local Open Scope string_scope.

Section Directory.
Variable url_host : jsval -> option string.

(** C7.  An entry is kept exactly when its preferred position (the
    [_real_position] override when that is present, that is truthy, else
    [position]) is an array of two elements and its site URL has a host
    other than the empty string and 0.0.0.0.  The router kept has the two
    elements swapped and unvalidated, [udp] equal to the enabled flag and
    [wss] equal to the enabled flag AND the TLS flag. *)
Theorem parseEntry_keep (o : jsval) (r : Router) :
  (parseEntry url_host o = Keep r <->
   exists p0 p1 h,
     preferred_position o = JArr [p0; p1]
     /\ url_host (field o "site") = Some h
     /\ h <> "" /\ h <> "0.0.0.0"
     /\ r = {| id := field o "shortname";
               position := (p1, p0);
               host := h;
               udp := field o "fch-enabled";
               wss := js_and (field o "fch-enabled") (field o "ws-tls") |})
  /\ preferred_position o =
       (if truthy (field o "_real_position") then field o "_real_position"
        else field o "position")
  /\ truthy (js_and (field o "fch-enabled") (field o "ws-tls")) =
       truthy (field o "fch-enabled") && truthy (field o "ws-tls").
Proof.
  split; [| split].
  - split.
    + unfold parseEntry. intro H.
      assert (match preferred_position o with
              | JArr [p0; p1] =>
                  match url_host (field o "site") with
                  | None => Skip
                  | Some h =>
                      if (h =? "") || (h =? "0.0.0.0") then Skip
                      else Keep {| id := field o "shortname";
                                   position := (p1, p0);
                                   host := h;
                                   udp := field o "fch-enabled";
                                   wss := js_and (field o "fch-enabled")
                                                 (field o "ws-tls") |}
                  end
              | _ => Skip
              end = Keep r) as H'
        by (destruct o; (discriminate H || exact H)).
      clear H.
      destruct (preferred_position o) as [| | | | | items | |];
        try discriminate.
      destruct items as [| p0 [| p1 [| ? ?]]]; try discriminate.
      destruct (url_host (field o "site")) as [h |]; [| discriminate].
      destruct (h =? "") eqn:E1; [discriminate |].
      destruct (h =? "0.0.0.0") eqn:E2; [discriminate |].
      simpl in H'. injection H' as <-.
      exists p0, p1, h.
      apply String.eqb_neq in E1. apply String.eqb_neq in E2.
      repeat split; assumption.
    + intros (p0 & p1 & h & Hp & Hh & N1 & N2 & ->).
      apply String.eqb_neq in N1. apply String.eqb_neq in N2.
      assert (o <> JNull /\ o <> JUndefined) as [? ?]
        by (split; intros ->; discriminate Hp).
      unfold parseEntry. rewrite Hp, Hh, N1, N2.
      destruct o; try reflexivity; congruence.
  - reflexivity.
  - unfold js_and. destruct (truthy (field o "fch-enabled")) eqn:E.
    + reflexivity.
    + now rewrite E.
Qed.

Lemma failing_fetch_throws (evs : list (event jsval)) (e : error) :
  failing_fetch evs e ->
  exists st, await (fetchTestbedNodes url_host) evs = Some (Throw e, st).
Proof.
  intros [evs' | e' evs' | status ct b evs' Hs | status ct e' evs' Hs];
    simpl; try rewrite Hs; simpl; eauto.
Qed.

Lemma listRouters_stale_fetches (c : Cache) (now : Z)
    (evs : list (event jsval)) (now' : Z) :
  lastFetch c + refreshInterval < now -> evs <> [] ->
  exists l, listRouters url_host c now evs now' = Some l /\ fetched l = true.
Proof.
  intros Hstale Hevs. unfold listRouters.
  apply Z.ltb_lt in Hstale. rewrite Hstale.
  destruct evs as [| ev evs]; [congruence |].
  destruct (TimedCallFacts.await_first (fetchTestbedNodes url_host) ev evs)
    as (st & -> & _).
  destruct ev as [| r]; [eauto |].
  destruct (fetchTestbedNodes url_host r); eauto.
Qed.

(** C3.  When the cache is stale and the fetch fails (timeout, network
    error, non-success status or unreadable body), [listRouters] returns
    the cached list, leaves the list and [lastFetch] as they were, logs the
    error, and the next call, at any later time, fetches again. *)
Theorem listRouters_failure (c : Cache) (now : Z) (evs : list (event jsval))
    (now' : Z) (e : error) :
  lastFetch c + refreshInterval < now ->
  failing_fetch evs e ->
  exists l,
    listRouters url_host c now evs now' = Some l
    /\ listed l = routers c
    /\ cache_after l = c
    /\ logged l = Some e
    /\ forall now2 evs2 now2',
         now <= now2 -> evs2 <> [] ->
         exists l2,
           listRouters url_host (cache_after l) now2 evs2 now2' = Some l2
           /\ fetched l2 = true.
Proof.
  intros Hstale Hfail.
  destruct (failing_fetch_throws evs e Hfail) as [st Hst].
  unfold listRouters at 1.
  assert ((lastFetch c + refreshInterval <? now)%Z = true) as ->
    by (apply Z.ltb_lt; exact Hstale).
  rewrite Hst. eexists. split; [reflexivity |]. simpl.
  repeat split.
  intros now2 evs2 now2' Hlater Hevs2.
  apply listRouters_stale_fetches; [lia | assumption].
Qed.

Lemma listRouters_cached (c : Cache) (now : Z) (evs : list (event jsval))
    (now' : Z) :
  now - lastFetch c <= refreshInterval ->
  listRouters url_host c now evs now' =
    Some {| listed := routers c; cache_after := c; fetched := false;
            logged := None; timer_left := false |}.
Proof.
  intro H. unfold listRouters.
  assert ((lastFetch c + refreshInterval <? now)%Z = false) as ->
    by (apply Z.ltb_ge; lia).
  reflexivity.
Qed.

(** C4, as amended.  A call made while [now - lastFetch < refreshInterval]
    returns the cached list without fetching; and of two calls less than
    the interval apart, the second does not fetch when the first fetched
    and did not fail. *)
Theorem listRouters_one_fetch :
  (forall c now evs now',
     now - lastFetch c < refreshInterval ->
     exists l,
       listRouters url_host c now evs now' = Some l
       /\ listed l = routers c /\ cache_after l = c /\ fetched l = false)
  /\
  (forall c now1 evs1 now1' l1 now2 evs2 now2',
     listRouters url_host c now1 evs1 now1' = Some l1 ->
     fetched l1 = true -> logged l1 = None ->
     now1 <= now1' -> now1' <= now2 -> now2 - now1 < refreshInterval ->
     exists l2,
       listRouters url_host (cache_after l1) now2 evs2 now2' = Some l2
       /\ listed l2 = listed l1 /\ fetched l2 = false).
Proof.
  split.
  - intros c now evs now' H.
    rewrite listRouters_cached by lia. eexists. repeat split.
  - intros c now1 evs1 now1' l1 now2 evs2 now2' H1 Hf Hl Ha Hb Hc.
    unfold listRouters in H1.
    destruct (lastFetch c + refreshInterval <? now1)%Z.
    + destruct (await (fetchTestbedNodes url_host) evs1)
        as [[[rs | e] st] |]; try discriminate.
      * injection H1 as <-. simpl.
        rewrite listRouters_cached by (simpl; lia).
        eexists. repeat split.
      * injection H1 as <-. discriminate Hl.
    + injection H1 as <-. discriminate Hf.
Qed.
End Directory.
End TestbedFacts.

(** ** Fallback selection *)

Module FallbackFacts.
Import Resolver Testbed Spec.
Local Open Scope string_scope.

Lemma available_iff (q : Query) (r : Router) :
  available q r = true <-> names_truthy_property q r.
Proof.
  unfold available, names_truthy_property. apply existsb_exists.
Qed.

Lemma has_true_flag_available (q : Query) (r : Router) :
  has_true_flag q r -> available q r = true.
Proof.
  intros (c & Hc & H). apply available_iff. exists c. split; [assumption |].
  destruct H as [[-> H] | [-> H]]; exact H.
Qed.

Section Fallback.
Variable url_host : jsval -> option string.
Variable distance : jsval * jsval -> jsval * jsval -> Q.

Lemma listRouters_returns (c : Cache) (now : Z) (evs : list (event jsval))
    (now' : Z) :
  evs <> [] -> exists l, listRouters url_host c now evs now' = Some l.
Proof.
  intro Hevs. unfold listRouters.
  destruct (lastFetch c + refreshInterval <? now)%Z; [| eauto].
  destruct evs as [| ev evs]; [congruence |].
  destruct ev as [| r]; simpl; [eauto |].
  destruct (fetchTestbedNodes url_host r); eauto.
Qed.

(** C1, as amended.  For a parsed query the fallback path answers with
    content type text/plain and the comma-joined hosts of the first
    [count[0]] routers of a ranking that (a) consists of exactly the listed
    routers for which some name in [transport] is a truthy property of the
    router object, (b) ascends in distance from the query position and
    (c) keeps routers at equal distance in directory order; (b) and (c)
    leave no other ranking. *)
Theorem fallback_ranking (req : Request) (c : Cache) (w : World) :
  directory w <> [] ->
  let q := QueryModel.parse req in
  let far := remoteness distance q in
  exists l ranked k,
    fallbackLogic url_host distance q c w =
      Some ((Some "text/plain",
             String.concat "," (map host (firstn (Z.to_nat k) ranked))), l)
    /\ hd_error (count q) = Some k /\ 1 <= k
    /\ Permutation ranked (filter (available q) (listed l))
    /\ (forall r, In r ranked <->
                  In r (listed l) /\ names_truthy_property q r)
    /\ StronglySorted (ArraySort.ascending far) ranked
    /\ (forall v,
          filter (ArraySort.at_key far v) ranked =
          filter (ArraySort.at_key far v) (filter (available q) (listed l)))
    /\ (forall ranked',
          StronglySorted (ArraySort.ascending far) ranked' ->
          (forall v,
             filter (ArraySort.at_key far v) ranked' =
             filter (ArraySort.at_key far v)
                    (filter (available q) (listed l))) ->
          ranked' = ranked).
Proof.
  intros Hdir q far.
  destruct (listRouters_returns c (clock w) (directory w) (clock_after w) Hdir)
    as [l Hl].
  destruct (QueryFacts.count_head req) as (k & rest & Hk & Hk1).
  fold q in Hk.
  set (avail := filter (available q) (listed l)).
  exists l, (ArraySort.sort (by_distance distance (JNum (lon q), JNum (lat q)))
               avail), k.
  change (by_distance distance (JNum (lon q), JNum (lat q)))
    with (ArraySort.cmp far).
  pose proof (ArraySortFacts.sort_perm far avail) as Hperm.
  pose proof (ArraySortFacts.sort_sorted far avail) as Hsorted.
  pose proof (fun v => ArraySortFacts.sort_stable far v avail) as Hstable.
  split; [| split; [| split; [| split; [| split; [| split; [| split]]]]]].
  - unfold fallbackLogic. rewrite Hl. unfold select. rewrite Hk.
    unfold slice0. destruct (k <? 0)%Z eqn:E; [lia | reflexivity].
  - now rewrite Hk.
  - exact Hk1.
  - exact Hperm.
  - intro r. split.
    + intro H. apply (Permutation_in _ Hperm) in H.
      apply filter_In in H. destruct H as [H1 H2].
      split; [assumption | now apply available_iff].
    + intros [H1 H2]. apply (Permutation_in _ (Permutation_sym Hperm)).
      apply filter_In. split; [assumption | now apply available_iff].
  - exact Hsorted.
  - exact Hstable.
  - intros ranked' Hs Hst.
    apply (ArraySortFacts.sorted_stable_unique far); try assumption.
    intro v. now rewrite Hst, Hstable.
Qed.

(** C10.  Two queries with the same [lon], [lat], [transport] and [count]
    get the same fallback answer from the same directory state, whatever
    their [ipv4], [ipv6] and [network]. *)
Theorem fallback_ignores_ip_and_network (q1 q2 : Query) (c : Cache)
    (w : World) :
  lon q1 = lon q2 -> lat q1 = lat q2 ->
  transport q1 = transport q2 -> count q1 = count q2 ->
  fallbackLogic url_host distance q1 c w =
  fallbackLogic url_host distance q2 c w.
Proof.
  intros Hlon Hlat Htr Hcount. unfold fallbackLogic.
  destruct (listRouters url_host c (clock w) (directory w) (clock_after w));
    [| reflexivity].
  unfold select, available. now rewrite Hlon, Hlat, Htr, Hcount.
Qed.
End Fallback.
End FallbackFacts.

(** ** Resolver *)

Module ResolverFacts.
Import Resolver Testbed Spec.
Local Open Scope string_scope.

Lemma apiRequest_normal (r : fetch_result string) (ct : option string)
    (b : string) :
  apiRequest r = Normal (ct, b) <->
  exists status, r = Response status ct (Normal b) /\ ok status = true.
Proof.
  split.
  - destruct r as [e | status ct' [b' | e]]; simpl; try discriminate;
      destruct (ok status) eqn:E; simpl; try discriminate.
    intro H. injection H as -> ->. now exists status.
  - intros (status & -> & E). simpl. now rewrite E.
Qed.

Lemma upstream_success_dec (ev : event string) (rest : list (event string)) :
  (exists ct b, upstream_success (ev :: rest) ct b) \/
  ~ (exists ct b, upstream_success (ev :: rest) ct b).
Proof.
  destruct ev as [| [e | status ct [b | e]]];
    try (right; intros (ct0 & b0 & status0 & rest0 & H & _); discriminate H).
  destruct (ok status) eqn:Hs.
  - destruct (String.eqb_spec b "") as [-> | Hb].
    + right. intros (ct0 & b0 & status0 & rest0 & H & _ & Hb0).
      injection H as _ _ <- _. now apply Hb0.
    + left. now exists ct, b, status, rest.
  - right. intros (ct0 & b0 & status0 & rest0 & H & Hs0 & _).
    injection H as <- _ _ _. congruence.
Qed.

Section Handler.
Variable url_host : jsval -> option string.
Variable distance : jsval * jsval -> jsval * jsval -> Q.

(** C8.  In both timeout-bounded calls the await produces one outcome,
    that of the first event, and no later event changes it: when the timer
    fires first the signal is aborted and the outcome is the timeout
    error; when the call completes first the outcome is the call's, a
    status outside 2xx being a failure. *)
Theorem timeout_race :
  (forall (ev : event string) (evs : list (event string)),
     settled (run apiRequest (ev :: evs)) =
       Some match ev with
            | TimerFires => Throw TimeoutError
            | CallCompletes r => apiRequest r
            end
     /\ (ev = TimerFires ->
         signal_aborted (run apiRequest (ev :: evs)) = true)
     /\ (forall status ct b,
           ev = CallCompletes (Response status ct b) -> ok status = false ->
           settled (run apiRequest (ev :: evs)) =
             Some (Throw (HttpError status))))
  /\
  (forall (ev : event jsval) (evs : list (event jsval)),
     settled (run (fetchTestbedNodes url_host) (ev :: evs)) =
       Some match ev with
            | TimerFires => Throw TimeoutError
            | CallCompletes r => fetchTestbedNodes url_host r
            end
     /\ (ev = TimerFires ->
         signal_aborted (run (fetchTestbedNodes url_host) (ev :: evs)) = true)
     /\ (forall status ct b,
           ev = CallCompletes (Response status ct b) -> ok status = false ->
           settled (run (fetchTestbedNodes url_host) (ev :: evs)) =
             Some (Throw (HttpError status)))).
Proof.
  split; intros ev evs;
    (split; [apply TimedCallFacts.first_event_wins |];
     split; [apply TimedCallFacts.first_event_wins |]);
    intros status ct b -> Hs;
    rewrite (proj1 (TimedCallFacts.first_event_wins _ _ _));
    simpl; now rewrite Hs.
Qed.

(** C9 fails on the failure path: when the call ends with an HTTP error
    before the timer, neither [handleQuery] nor [listRouters] clears the
    timer; it is still pending when they return. *)
Theorem timer_left_after_failure :
  (forall req c w rest status ct b,
     upstream w = CallCompletes (Response status ct b) :: rest ->
     ok status = false ->
     forall h, handleQuery url_host distance req c w = Some h ->
               api_timer_left h = true)
  /\
  (forall c now rest now' status ct b,
     lastFetch c + refreshInterval < now ->
     ok status = false ->
     exists l,
       listRouters url_host c now
         (CallCompletes (Response status ct b) :: rest) now' = Some l
       /\ timer_left l = true).
Proof.
  split.
  - intros req c w rest status ct b Hup Hs h. unfold handleQuery.
    rewrite Hup. simpl. rewrite Hs. simpl.
    destruct (fallbackLogic url_host distance (QueryModel.parse req) c w)
      as [[[ct' b'] l] |]; [| discriminate].
    intro H. now injection H as <-.
  - intros c now rest now' status ct b Hstale Hs. unfold listRouters.
    apply Z.ltb_lt in Hstale. rewrite Hstale. simpl. rewrite Hs. simpl.
    eexists. split; reflexivity.
Qed.

(** C2.  A request whose upstream call and directory fetch both come to
    an end is answered; the answer is tagged "api" and carries the upstream
    body and content type exactly when the upstream call came back before
    the timer with a 2xx status and a non-empty body; otherwise it is tagged
    "fallback" and its body and content type are those of [fallbackLogic]. *)
Theorem handleQuery_source (req : Request) (c : Cache) (w : World) :
  upstream w <> [] -> directory w <> [] ->
  exists h,
    handleQuery url_host distance req c w = Some h
    /\ (source (reply h) = "api" <->
        exists ct b, upstream_success (upstream w) ct b)
    /\ (forall ct b,
          upstream_success (upstream w) ct b ->
          source (reply h) = "api" /\ body (reply h) = b
          /\ contentType (reply h) = ct)
    /\ ((~ exists ct b, upstream_success (upstream w) ct b) ->
        source (reply h) = "fallback"
        /\ exists l,
             fallbackLogic url_host distance (QueryModel.parse req) c w =
               Some ((contentType (reply h), body (reply h)), l)).
Proof.
  intros Hup Hdir.
  destruct (upstream w) as [| ev rest] eqn:Eup; [congruence |]. clear Hup.
  destruct (FallbackFacts.listRouters_returns url_host c (clock w)
              (directory w) (clock_after w) Hdir) as [l Hl].
  assert (fallbackLogic url_host distance (QueryModel.parse req) c w =
            Some (select distance (QueryModel.parse req) (listed l), l))
    as Hfb by (unfold fallbackLogic; now rewrite Hl).
  assert (Hfallback :
    (~ exists ct b, upstream_success (ev :: rest) ct b) ->
    forall res st,
      await apiRequest (ev :: rest) = Some (res, st) ->
      match res with Normal (_, b) => b = "" | Throw _ => True end).
  { intros Hno res st H. simpl in H.
    destruct ev as [| r]; simpl in H.
    - injection H as <- _. exact I.
    - injection H as <- _.
      destruct (apiRequest r) as [[ct b] |] eqn:E; [| exact I].
      destruct (String.eqb_spec b ""); [assumption |].
      exfalso. apply Hno. exists ct, b.
      apply apiRequest_normal in E. destruct E as (status & -> & Hs).
      now exists status, rest. }
  unfold handleQuery. rewrite Eup.
  destruct (TimedCallFacts.await_first apiRequest ev rest) as (st & Haw & _).
  rewrite Haw.
  destruct (upstream_success_dec ev rest) as [(ct & b & Hs) | Hno].
  - (* the upstream call succeeded *)
    destruct Hs as (status & rest' & Heq & Hok & Hb).
    injection Heq as -> <-. simpl. rewrite Hok. simpl.
    apply String.eqb_neq in Hb. rewrite Hb.
    eexists. split; [reflexivity |]. simpl.
    split; [| split].
    + split; [intros _ | reflexivity].
      exists ct, b, status, rest. apply String.eqb_neq in Hb. now repeat split.
    + intros ct2 b2 (status2 & rest2 & Heq2 & _ & _).
      injection Heq2 as -> -> -> ->. now repeat split.
    + intro Hno. exfalso. apply Hno. exists ct, b, status, rest.
      apply String.eqb_neq in Hb. now repeat split.
  - (* anything else: the fallback answers *)
    specialize (Hfallback Hno _ _ Haw).
    assert (exists hd,
      (let '(contentType, body, source, err) :=
         match (match ev with
                | TimerFires => Throw TimeoutError
                | CallCompletes r => apiRequest r
                end) with
         | Normal (ct, b) => (ct, b, "api", None)
         | Throw e => (Some "text/plain", "", "", Some e)
         end in
       if body =? "" then
         match fallbackLogic url_host distance (QueryModel.parse req) c w with
         | None => None
         | Some ((ct, b), l) =>
             Some {| reply := {| body := b; contentType := ct;
                                 source := "fallback";
                                 x_fch_query :=
                                   QueryModel.toSearchParams
                                     (QueryModel.parse req) |};
                     cache_out := cache_after l;
                     api_timer_left := timer_pending st;
                     api_logged := err;
                     listing := Some l |}
         end
       else
         Some {| reply := {| body := body; contentType := contentType;
                             source := source;
                             x_fch_query :=
                               QueryModel.toSearchParams
                                 (QueryModel.parse req) |};
                 cache_out := c;
                 api_timer_left := timer_pending st;
                 api_logged := err;
                 listing := None |}) = Some hd
      /\ source (reply hd) = "fallback"
      /\ (contentType (reply hd), body (reply hd)) =
           select distance (QueryModel.parse req) (listed l))
      as (hd & -> & Hsrc & Hsel).
    { rewrite Hfb.
      destruct (match ev with
                | TimerFires => Throw TimeoutError
                | CallCompletes r => apiRequest r
                end) as [[ct b] | e].
      - subst b. simpl.
        destruct (select distance (QueryModel.parse req) (listed l)) eqn:Es.
        eexists. split; [reflexivity |]. simpl. now split.
      - simpl.
        destruct (select distance (QueryModel.parse req) (listed l)) eqn:Es.
        eexists. split; [reflexivity |]. simpl. now split. }
    exists hd. split; [reflexivity |].
    split; [| split].
    + split; [rewrite Hsrc; discriminate | intro H; now elim Hno].
    + intros ct b H. exfalso. apply Hno. now exists ct, b.
    + intros _. split; [exact Hsrc |]. exists l. now rewrite Hsel.
Qed.
End Handler.
End ResolverFacts.


(** ** Earlier revisions *)

Module EarlierFacts.
Local Open Scope string_scope.

(** The earlier constructor leaves [cap] empty when the parameter is
    absent. *)
Lemma cap_absent (s : SearchParams.t) :
  SearchParams.has s "cap" = false -> Earlier.cap s = [].
Proof.
  unfold Earlier.cap, SearchParams.has, SearchParams.getAll.
  induction s as [| p s IH]; simpl; [reflexivity |].
  destruct (SearchParams.named "cap" p); simpl; [discriminate | exact IH].
Qed.

(** The earlier [listRouters] fetches on every call. *)
Lemma listRouters_refetches (url_host : jsval -> option string)
    (cached : list Router) (now : Z) (evs : list (event jsval)) :
  3600000 < now -> evs <> [] ->
  exists l,
    Earlier.listRouters url_host cached now evs = Some l
    /\ Testbed.fetched l = true
    /\ lastFetch (Testbed.cache_after l) = 0.
Proof.
  intros Hnow Hevs. unfold Earlier.listRouters.
  assert ((0 + 3600000 <? now)%Z = true) as -> by (apply Z.ltb_lt; lia).
  destruct evs as [| ev evs]; [congruence |].
  destruct (TimedCallFacts.await_first (Testbed.fetchTestbedNodes url_host)
              ev evs) as (st & -> & _).
  destruct ev as [| r]; [eauto |].
  destruct (Testbed.fetchTestbedNodes url_host r); eauto.
Qed.

End EarlierFacts.

(* ================================================================== *)
(** * Instances *)

Module Instances.
Import SearchParams QueryModel Testbed Resolver Spec.
Local Open Scope string_scope.
Local Open Scope list_scope.

(** The scenarios of the specification: position (0,0), cap=udp. *)
Example scenario_k1 :
  select Sample.distance
    (parse (Sample.request [("k", "1"); ("cap", "udp")])) Sample.testbed
  = (Some "text/plain", "a").
Proof. vm_compute. reflexivity. Qed.

Example scenario_k2 :
  select Sample.distance
    (parse (Sample.request [("k", "2"); ("cap", "udp")])) Sample.testbed
  = (Some "text/plain", "a,b").
Proof. vm_compute. reflexivity. Qed.

(** Routers at the same distance keep their directory order. *)
Example scenario_tie :
  select Sample.distance
    (parse (Sample.request [("k", "3")]))
    [Sample.router "far" 5 5 true false; Sample.router "x" 1 0 true false;
     Sample.router "y" 0 1 true false]
  = (Some "text/plain", "x,y,far").
Proof. vm_compute. reflexivity. Qed.

(** A directory document as the testbed serves it. *)
Example scenario_directory :
  fetchTestbedNodes Sample.url_host
    (Response 200 (Some "application/json")
       (Normal (JObj
          [("UCLA", Sample.entry "UCLA" "https://ucla.example:443/" 34 (-118)
                      true true);
           ("OFF", Sample.entry "OFF" "https://0.0.0.0/" 1 2 true true);
           ("BAD", JObj [("site", JStr "https://bad.example/");
                         ("position", JArr [Sample.num 1])])])))
  = Normal [{| id := JStr "UCLA";
               position := (Sample.num (-118), Sample.num 34);
               host := "ucla.example:443";
               udp := JBool true; wss := JBool true |}].
Proof. vm_compute. reflexivity. Qed.

(** *** C1 *)

(** The claim as stated fails: with [cap=host] the fallback lists router c,
    none of whose capability flags is true. *)
Lemma fallback_flag_counterexample :
  let q := parse (Sample.request [("cap", "host"); ("k", "3")]) in
  let c := Sample.router "c" 1 1 false false in
  exists l,
    fallbackLogic Sample.url_host Sample.distance q Sample.cache Sample.quiet
      = Some ((Some "text/plain", "a,c,b"), l)
    /\ In c (listed l)
    /\ ~ has_true_flag q c.
Proof.
  eexists. split; [vm_compute; reflexivity |].
  split; [simpl; tauto |].
  intros (n & Hin & H). simpl in Hin. destruct Hin as [<- | []].
  destruct H as [[H _] | [H _]]; discriminate H.
Qed.

Lemma fallback_ranking_witness :
  directory Sample.quiet <> []
  /\ exists l ranked,
       fallbackLogic Sample.url_host Sample.distance
         (parse (Sample.request [("k", "2")])) Sample.cache Sample.quiet
       = Some ((Some "text/plain",
                String.concat "," (map host (firstn 2 ranked))), l)
       /\ Permutation ranked
            (filter (available (parse (Sample.request [("k", "2")])))
                    (listed l)).
Proof.
  split; [discriminate |].
  destruct (FallbackFacts.fallback_ranking Sample.url_host Sample.distance
              (Sample.request [("k", "2")]) Sample.cache Sample.quiet)
    as (l & ranked & k & Hres & Hk & _ & Hperm & _); [discriminate |].
  exists l, ranked. split; [| exact Hperm].
  injection Hk as <-. exact Hres.
Defined.

(** *** C10 *)

Lemma fallback_ignores_ip_and_network_witness :
  let q1 := parse (Sample.request [("k", "2"); ("ipv4", "0")]) in
  let q2 := parse (Sample.request [("k", "2"); ("ipv6", "1");
                                   ("network", "ndn")]) in
  (ipv4 q1 <> ipv4 q2 /\ ipv6 q1 <> ipv6 q2 /\ network q1 <> network q2)
  /\ fallbackLogic Sample.url_host Sample.distance q1 Sample.cache Sample.quiet
     = fallbackLogic Sample.url_host Sample.distance q2 Sample.cache
         Sample.quiet.
Proof.
  split; [repeat split; discriminate |].
  apply FallbackFacts.fallback_ignores_ip_and_network; reflexivity.
Defined.

(** *** C2 *)

Lemma handleQuery_source_witness :
  (upstream Sample.quiet <> [] /\ directory Sample.quiet <> [])
  /\ exists h,
       handleQuery Sample.url_host Sample.distance
         (Sample.request [("k", "2")]) Sample.cache Sample.quiet = Some h
       /\ source (reply h) = "fallback".
Proof.
  split; [split; discriminate |].
  destruct (ResolverFacts.handleQuery_source Sample.url_host Sample.distance
              (Sample.request [("k", "2")]) Sample.cache Sample.quiet)
    as (h & Hh & _ & _ & Hfb); try discriminate.
  exists h. split; [exact Hh |].
  apply Hfb. intros (ct & b & status & rest & Heq & _). discriminate Heq.
Defined.

(** *** C3 *)

Lemma listRouters_failure_witness :
  (lastFetch initial_cache + refreshInterval < 1700000000000
   /\ failing_fetch [TimerFires] TimeoutError)
  /\ exists l,
       listRouters Sample.url_host initial_cache 1700000000000 [TimerFires]
         1700000002000 = Some l
       /\ listed l = routers initial_cache
       /\ cache_after l = initial_cache.
Proof.
  split; [split; [reflexivity | constructor] |].
  destruct (TestbedFacts.listRouters_failure Sample.url_host initial_cache
              1700000000000 [TimerFires] 1700000002000 TimeoutError)
    as (l & Hl & Hlist & Hcache & _); [reflexivity | constructor |].
  exists l. auto.
Defined.

(** *** C4 *)

(** The claim as stated fails: two calls one millisecond apart both fetch
    when the first fetch fails. *)
Lemma two_fetches_counterexample :
  exists l1 l2,
    listRouters Sample.url_host initial_cache 1700000000000
      [CallCompletes (Rejected NetworkError)] 1700000000000 = Some l1
    /\ listRouters Sample.url_host (cache_after l1) 1700000000001
         [CallCompletes (Rejected NetworkError)] 1700000000001 = Some l2
    /\ 1700000000001 - 1700000000000 < refreshInterval
    /\ fetched l1 = true /\ fetched l2 = true.
Proof.
  eexists. eexists.
  split; [reflexivity |]. split; [reflexivity |].
  split; [reflexivity |]. split; reflexivity.
Qed.

Lemma listRouters_one_fetch_witness :
  2000 - lastFetch Sample.cache < refreshInterval
  /\ exists l,
       listRouters Sample.url_host Sample.cache 2000 [TimerFires] 4000 = Some l
       /\ listed l = routers Sample.cache
       /\ cache_after l = Sample.cache
       /\ fetched l = false.
Proof.
  split; [reflexivity |].
  apply (proj1 (TestbedFacts.listRouters_one_fetch Sample.url_host)).
  reflexivity.
Defined.

(** *** C5 *)

Lemma parse_defaults_witness :
  (has (@nil (string * string)) "k" = false
   /\ has (@nil (string * string)) "cap" = false)
  /\ count (parse (Sample.request [])) = [1]
  /\ transport (parse (Sample.request [])) = ["udp"].
Proof.
  split; [split; reflexivity |].
  destruct (ParseFacts.parse_defaults (Sample.request []))
    as (_ & Hk & Hcap & _).
  split; [apply Hk | apply Hcap]; reflexivity.
Defined.

(** *** C6 *)

(** The claim as stated fails: an empty [network] parameter is parsed as
    the empty string, not emitted, and parsed again as absent. *)
Lemma network_roundtrip_counterexample :
  let q := parse (Sample.request [("network", "")]) in
  let q' := parse (Sample.request (toSearchParams q)) in
  network q = Some "" /\ network q' = None /\ q' <> q.
Proof.
  split; [reflexivity |]. split; [reflexivity |].
  intro H. apply (f_equal network) in H. discriminate H.
Qed.

(** A count of 10^21 is printed in exponent notation, which [parseInt]
    reads as 1. *)
Example count_roundtrip_large :
  let q := parse (Sample.request [("k", "1000000000000000000000")]) in
  let q' := parse (Sample.request (toSearchParams q)) in
  count q = [10 ^ 21]
  /\ getAll (toSearchParams q) "k" = ["1e+21"]
  /\ count q' = [1].
Proof. vm_compute. repeat split. Qed.

(** A hint that is not a coordinate is not carried over: the second parse
    takes the hint of its own request. *)
Example lon_roundtrip_hint :
  let req := {| searchParams := []; connectingIP := None; accept := None;
                cf_longitude := NaN; cf_latitude := NaN |} in
  let q := parse req in
  let q' := parse (forwarded q None None (Dec 5 0) (Dec 7 0)) in
  lon q = NaN /\ get (toSearchParams q) "lon" = Some "NaN"
  /\ lon q' = Dec 5 0.
Proof. vm_compute. repeat split. Qed.

Lemma serialize_parse_witness :
  let req := Sample.request [("k", "3"); ("cap", "wss"); ("lon", "12.5")] in
  let q := parse req in
  let q' := parse (forwarded q None None NaN NaN) in
  (Number.normalized (cf_longitude req) /\ Number.normalized (cf_latitude req))
  /\ toSearchParams q =
       [("k", "3"); ("cap", "wss"); ("ipv4", "1"); ("ipv6", "0");
        ("lon", "12.5"); ("lat", "0")]
  /\ transport q' = transport q
  /\ ipv4 q' = ipv4 q
  /\ ipv6 q' = ipv6 q.
Proof.
  intros req q q'.
  split; [split; left; split; reflexivity |].
  destruct (RoundTripFacts.serialize_parse req None None NaN NaN)
    as (Hem & _ & Htr & H4 & H6 & _);
    [left; split; reflexivity | left; split; reflexivity |].
  split; [transitivity (emitted q); [exact Hem | reflexivity] |].
  split; [exact Htr |]. split; [exact H4 | exact H6].
Defined.

(** *** C7 *)

Lemma parseEntry_keep_witness :
  parseEntry Sample.url_host
    (Sample.entry "UCLA" "https://ucla.example/" 200 50 true false)
  = Keep {| id := JStr "UCLA";
            position := (Sample.num 50, Sample.num 200);
            host := "ucla.example";
            udp := JBool true;
            wss := JBool false |}.
Proof.
  apply (proj1 (TestbedFacts.parseEntry_keep Sample.url_host _ _)).
  exists (Sample.num 200), (Sample.num 50), "ucla.example".
  repeat split; discriminate.
Defined.

(** *** C8 *)

Lemma timeout_race_witness :
  settled (run apiRequest
             [TimerFires; CallCompletes (Response 200 None (Normal "x"))])
  = Some (Throw TimeoutError)
  /\ settled (run apiRequest
                [CallCompletes (Response 404 None (Normal "x")); TimerFires])
     = Some (Throw (HttpError 404)).
Proof.
  destruct (ResolverFacts.timeout_race Sample.url_host) as [Hapi _].
  split.
  - exact (proj1 (Hapi TimerFires
                    [CallCompletes (Response 200 None (Normal "x"))])).
  - apply (proj2 (proj2 (Hapi (CallCompletes (Response 404 None (Normal "x")))
                           [TimerFires])) 404 None (Normal "x"));
      reflexivity.
Defined.

(** *** C9 *)

Lemma timer_left_after_failure_witness :
  (lastFetch initial_cache + refreshInterval < 1700000000000
   /\ ok 500 = false)
  /\ exists l,
       listRouters Sample.url_host initial_cache 1700000000000
         [CallCompletes (Response 500 None (Normal JNull))] 1700000000100
       = Some l
       /\ timer_left l = true.
Proof.
  split; [split; reflexivity |].
  apply (proj2 (ResolverFacts.timer_left_after_failure Sample.url_host
                  Sample.distance)); reflexivity.
Defined.

End Instances.
